(** * Asset bundling server of the noname API: a shallow embedding

    The development follows [src/noname.ts].  That file holds three
    variants of the bundling code: two fetch-API handlers [getNoname]
    (an in-memory archive, answered with a [Response] object) and the
    Node HTTP server [nonameRequestListener] (an archive streamed to
    the response and to a cache file at once).  The three of them are
    embedded here, and so is the port computation that ends the file.

    Conventions.
    - A JavaScript string is a Rocq [string] holding its UTF-8 bytes, so
      [TextEncoder.encode] is the list of its bytes.  The characters the
      code inspects are all ASCII, and an ASCII byte never occurs inside
      a multi-byte UTF-8 sequence.
    - The outside world (network, file system, HTTP response, console)
      is an explicit [World] value threaded through every call; what the
      environment answers is read from an [Env] of oracles.  The
      [console.log] lines are left out, [console.error] is recorded.
    - A thrown exception is the [Throw] case of [result].
    - An [await] is the call followed by its outcome.  The tasks handed
      to [Promise.all] through the limiter are taken in the schedule in
      which they complete one after the other, in list order; the
      limiter that admits them is modelled apart, as a step machine
      over arbitrary event sequences ([Scheduler]).  A promise
      that is dropped instead of awaited (the [unlink] of the [catch]
      block) stays outstanding when the function returns. *)

From Stdlib Require Import ZArith Lia List Bool Ascii String DecimalString.
From stdpp Require Import base option list strings gmap.

Local Open Scope Z_scope.
Local Open Scope string_scope.

(** ** SHA-256 (FIPS 180-4), the digest behind [crypto.subtle.digest]

    Words are 32-bit unsigned integers held in [Z]; every addition wraps
    modulo [2^32]. *)
Module SHA256.

Definition wrap (x : Z) : Z := x mod 2 ^ 32.
Definition add32 (x y : Z) : Z := wrap (x + y).
Definition rotr (n x : Z) : Z :=
  Z.lor (Z.shiftr x n) (wrap (Z.shiftl x (32 - n))).
Definition shr (n x : Z) : Z := Z.shiftr x n.
Definition not32 (x : Z) : Z := Z.lxor x 0xFFFFFFFF.

Definition Ch (x y z : Z) : Z := Z.lxor (Z.land x y) (Z.land (not32 x) z).
Definition Maj (x y z : Z) : Z :=
  Z.lxor (Z.lxor (Z.land x y) (Z.land x z)) (Z.land y z).
Definition bsig0 (x : Z) : Z := Z.lxor (Z.lxor (rotr 2 x) (rotr 13 x)) (rotr 22 x).
Definition bsig1 (x : Z) : Z := Z.lxor (Z.lxor (rotr 6 x) (rotr 11 x)) (rotr 25 x).
Definition ssig0 (x : Z) : Z := Z.lxor (Z.lxor (rotr 7 x) (rotr 18 x)) (shr 3 x).
Definition ssig1 (x : Z) : Z := Z.lxor (Z.lxor (rotr 17 x) (rotr 19 x)) (shr 10 x).

(** The constants are derived the way the standard defines them: the
    first 32 bits of the fractional parts of the cube roots (for [K])
    and of the square roots (for [H0]) of the first primes. *)
Definition is_prime (n : nat) : bool :=
  forallb (fun d => negb (Nat.eqb (n mod d) 0)) (seq 2 (n - 2)).

Definition primes (count : nat) : list Z :=
  map Z.of_nat (firstn count (filter is_prime (seq 2 320))).

(** The integer cube root, one bit at a time from bit [n - 1] down. *)
Fixpoint icbrt_bits (n : nat) (x r : Z) : Z :=
  match n with
  | O => r
  | S n' =>
      let c := r + 2 ^ Z.of_nat n' in
      if Z.leb (c * c * c) x then icbrt_bits n' x c else icbrt_bits n' x r
  end.

Definition frac_cbrt32 (p : Z) : Z := wrap (icbrt_bits 40 (p * 2 ^ 96) 0).
Definition frac_sqrt32 (p : Z) : Z := wrap (Z.sqrt (p * 2 ^ 64)).

Definition K : list Z := Eval vm_compute in map frac_cbrt32 (primes 64).

(** The eight working variables, and the running hash value. *)
Record regs : Type := Regs
  { ra : Z; rb : Z; rc : Z; rd : Z; re : Z; rf : Z; rg : Z; rh : Z }.

Definition H0 : regs :=
  Eval vm_compute in
    match map frac_sqrt32 (primes 8) with
    | [a; b; c; d; e; f; g; h] => Regs a b c d e f g h
    | _ => Regs 0 0 0 0 0 0 0 0
    end.

(** Padding: a 1 bit, zero bits up to 56 mod 64 bytes, then the
    message length in bits as a 64-bit big-endian integer. *)
Definition be_bytes (n : nat) (x : Z) : list Z :=
  map (fun i => (x / 2 ^ (8 * Z.of_nat i)) mod 256) (rev (seq 0 n)).

Definition pad (msg : list Z) : list Z :=
  let len := Z.of_nat (length msg) in
  let zeros := Z.to_nat ((55 - len) mod 64) in
  msg ++ 0x80 :: repeat 0 zeros ++ be_bytes 8 (8 * len).

Fixpoint words (bs : list Z) : list Z :=
  match bs with
  | b0 :: b1 :: b2 :: b3 :: rest =>
      (b0 * 2 ^ 24 + b1 * 2 ^ 16 + b2 * 2 ^ 8 + b3) :: words rest
  | _ => []
  end.

(** Message schedule: [n] more words after the ones in [w]. *)
Fixpoint schedule (n : nat) (w : list Z) : list Z :=
  match n with
  | O => w
  | S n' =>
      let t := length w in
      let at_ k := nth (t - k) w 0 in
      schedule n'
        (w ++ [add32 (add32 (ssig1 (at_ 2%nat)) (at_ 7%nat))
                     (add32 (ssig0 (at_ 15%nat)) (at_ 16%nat))])
  end.

Definition round (r : regs) (kw : Z * Z) : regs :=
  let t1 := add32 (add32 (add32 (rh r) (bsig1 (re r)))
                         (add32 (Ch (re r) (rf r) (rg r)) (fst kw))) (snd kw) in
  let t2 := add32 (bsig0 (ra r)) (Maj (ra r) (rb r) (rc r)) in
  Regs (add32 t1 t2) (ra r) (rb r) (rc r) (add32 (rd r) t1) (re r) (rf r) (rg r).

Definition compress (h : regs) (block : list Z) : regs :=
  let r := fold_left round (combine K (schedule 48 block)) h in
  Regs (add32 (ra h) (ra r)) (add32 (rb h) (rb r))
       (add32 (rc h) (rc r)) (add32 (rd h) (rd r))
       (add32 (re h) (re r)) (add32 (rf h) (rf r))
       (add32 (rg h) (rg r)) (add32 (rh h) (rh r)).

Fixpoint blocks (fuel : nat) (h : regs) (ws : list Z) : regs :=
  match fuel, ws with
  | S fuel', _ :: _ => blocks fuel' (compress h (firstn 16 ws)) (skipn 16 ws)
  | _, _ => h
  end.

Definition digest_bytes (h : regs) : list Z :=
  concat (map (be_bytes 4)
              [ra h; rb h; rc h; rd h; re h; rf h; rg h; rh h]).

Definition digest (msg : list Z) : list Z :=
  let ws := words (pad msg) in
  digest_bytes (blocks (length ws) H0 ws).

End SHA256.

(** ** Strings and numbers as the code uses them *)

(** [TextEncoder.encode]: the bytes of the string. *)
Definition encode (s : string) : list Z :=
  map (fun a => Z.of_N (N_of_ascii a)) (list_ascii_of_string s).

(** [array.join("")]. *)
Definition join_empty (array : list string) : string := String.concat "" array.

Definition hexDigit (d : Z) : ascii :=
  nth (Z.to_nat d) (list_ascii_of_string "0123456789abcdef") "0"%char.

(** [n.toString(16)] for a non-negative integer. *)
Fixpoint toString16_digits (fuel : nat) (n : Z) (acc : string) : string :=
  let acc' := String (hexDigit (n mod 16)) acc in
  match fuel with
  | O => acc'
  | S fuel' => if Z.eqb (n / 16) 0 then acc' else toString16_digits fuel' (n / 16) acc'
  end.

Definition toString16 (n : Z) : string :=
  toString16_digits (Z.to_nat (Z.log2 n)) n "".

(** [s.padStart(n, c)] for a one-character filler [c]. *)
Definition padStart (n : nat) (c : ascii) (s : string) : string :=
  string_of_list_ascii (repeat c (n - String.length s)) ++ s.

(** [generateHashFromArray]: SHA-256 of the joined names, each digest
    byte written as two lowercase hexadecimal digits. *)
Definition generateHashFromArray (array : list string) : string :=
  let data := encode (join_empty array) in
  let hashArray := SHA256.digest data in
  String.concat ""
    (map (fun byte => padStart 2 "0"%char (toString16 byte)) hashArray).


(** ** Values exchanged with the platform *)

(** What a [throw] or a rejected promise carries: an [Error] object with
    its message, or some other value ([instanceof Error] is false). *)
Inductive Thrown : Type :=
  | ErrorObj (message : string)
  | NonError.

Inductive result (A : Type) : Type :=
  | Ok (a : A)
  | Throw (e : Thrown).
Arguments Ok {A} a.
Arguments Throw {A} e.

Record Commit : Type := { sha : string; url : string }.

Record Tag : Type :=
  { name : string;
    zipball_url : string;
    tarball_url : string;
    commit : Commit;
    node_id : string }.

(** A [fetch] response: [ok], [status], the body ([None] for a [null]
    body) and what [json()] yields when the body is read as a tag list
    (a rejection when it is not one). *)
Record FetchResponse : Type :=
  { ok : bool;
    status : Z;
    body : option string;
    json : result (list Tag) }.

Inductive FetchOutcome : Type :=
  | Rejected (e : Thrown)
  | Responded (r : FetchResponse).

(** The request payload ([interface Noname]); an absent optional
    property is [None]. *)
Record Noname : Type :=
  { action : string;
    owner : option string;
    repo : option string;
    version : option string;
    fileList : list string }.

(** What the archive writer emits: one piece per appended entry, and the
    trailing index once the archive is finalized.  The compressed bytes
    themselves are the codec's business. *)
Inductive Chunk : Type :=
  | EntryChunk (entryName : string) (content : string)
  | EndOfArchive.

(** The [http.ServerResponse] of the request being served. *)
Record ServerResponse : Type :=
  { headersSent : bool;
    statusCode : option Z;
    headers : list (string * string);
    written : list Chunk;
    ended : bool;
    destroyed : bool }.

Definition freshResponse : ServerResponse :=
  {| headersSent := false; statusCode := None; headers := [];
     written := []; ended := false; destroyed := false |}.

(** Calls into the platform, in the order they were made; a [fetch] is
    listed when its outcome arrives. *)
Inductive Event : Type :=
  | EvFetch (input : string)
  | EvAccess (p : string)
  | EvMkdir (p : string)
  | EvCreateReadStream (p : string)
  | EvCreateWriteStream (p : string)
  | EvUnlink (p : string)
  | EvArchiver
  | EvAppend (entryName : string)
  | EvFinalize
  | EvWriteHead (code : Z)
  | EvEnd
  | EvDestroy
  | EvConsoleError (e : Thrown).

(** The world: files and directories by path, the [unlink] calls that
    were issued and whose promise nobody awaited, a clock that counts
    the questions put to the environment, the platform calls so far,
    and the response object. *)
Record World : Type :=
  { files : gmap string (list Chunk);
    dirs : gset string;
    pending : list string;
    clock : nat;
    trace : list Event;
    res : ServerResponse }.

(** What the environment answers.  [net t input] is the outcome of a
    [fetch] of [input] issued at clock [t]; [header_ok v] tells whether
    the HTTP layer accepts [v] as a header value (it throws on a
    character it cannot put on the wire); the two fault oracles say
    whether [mkdir] and [archive.finalize] reject at clock [t]. *)
Record Env : Type :=
  { net : nat -> string -> FetchOutcome;
    header_ok : string -> bool;
    mkdir_fault : nat -> option Thrown;
    finalize_fault : nat -> option Thrown }.

Definition with_files (f : gmap string (list Chunk)) (w : World) : World :=
  {| files := f; dirs := dirs w; pending := pending w; clock := clock w;
     trace := trace w; res := res w |}.
Definition with_dirs (d : gset string) (w : World) : World :=
  {| files := files w; dirs := d; pending := pending w; clock := clock w;
     trace := trace w; res := res w |}.
Definition with_pending (p : list string) (w : World) : World :=
  {| files := files w; dirs := dirs w; pending := p; clock := clock w;
     trace := trace w; res := res w |}.
Definition with_res (r : ServerResponse) (w : World) : World :=
  {| files := files w; dirs := dirs w; pending := pending w; clock := clock w;
     trace := trace w; res := r |}.
Definition tick (w : World) : World :=
  {| files := files w; dirs := dirs w; pending := pending w;
     clock := S (clock w); trace := trace w; res := res w |}.
Definition emit (e : Event) (w : World) : World :=
  {| files := files w; dirs := dirs w; pending := pending w; clock := clock w;
     trace := (trace w ++ [e])%list; res := res w |}.

(** ** Computations: state passing with exceptions *)

Definition M (A : Type) : Type := World -> result A * World.

Definition ret {A} (a : A) : M A := fun w => (Ok a, w).
Definition throw {A} (e : Thrown) : M A := fun w => (Throw e, w).
Definition bind {A B} (m : M A) (k : A -> M B) : M B :=
  fun w => match m w with
           | (Ok a, w') => k a w'
           | (Throw e, w') => (Throw e, w')
           end.
Definition effect (f : World -> World) : M unit := fun w => (Ok tt, f w).

Declare Scope js_scope.
Delimit Scope js_scope with js.
Notation "x <- m ;; k" := (bind m (fun x => k))
  (at level 100, m at next level, right associativity) : js_scope.
Notation "m ;; k" := (bind m (fun _ => k))
  (at level 100, right associativity) : js_scope.
Local Open Scope js_scope.

(** ** The platform calls *)

Section Platform.
Context (env : Env).

(** [await fetch(input)]. *)
Definition fetch (input : string) : M FetchResponse := fun w =>
  let w' := tick (emit (EvFetch input) w) in
  match net env (clock w) input with
  | Rejected e => (Throw e, w')
  | Responded r => (Ok r, w')
  end.

(** [response.json()]. *)
Definition readJson (r : FetchResponse) : M (list Tag) := fun w =>
  (json r, w).

(** [access(path)] succeeds on any existing file or directory. *)
Definition access_ok (p : string) (w : World) : bool :=
  bool_decide (is_Some (files w !! p)) || bool_decide (p ∈ dirs w).

Definition mkdir (p : string) : M unit := fun w =>
  let w' := tick (emit (EvMkdir p) w) in
  match mkdir_fault env (clock w) with
  | Some e => (Throw e, w')
  | None =>
      if access_ok p w
      then (Throw (ErrorObj "EEXIST: file already exists, mkdir"), w')
      else (Ok tt, with_dirs ({[p]} ∪ dirs w') w')
  end.

(** [createWriteStream(path)]: the file is created, or truncated. *)
Definition createWriteStream (p : string) : M unit :=
  effect (fun w => with_files (<[p := []]> (files w)) (emit (EvCreateWriteStream p) w)).

(** [unlink(path)] with the returned promise dropped: the call is
    issued and the caller goes on; the removal itself is still
    outstanding. *)
Definition unlink_detached (p : string) : M unit :=
  effect (fun w => with_pending (pending w ++ [p])%list (emit (EvUnlink p) w)).

(** [res.writeHead(code, headers)]. *)
Definition writeHead (code : Z) (hs : list (string * string)) : M unit := fun w =>
  let w' := emit (EvWriteHead code) w in
  if headersSent (res w)
  then (Throw (ErrorObj "Cannot write headers after they are sent to the client"), w')
  else if forallb (fun h => header_ok env (snd h)) hs
  then (Ok tt,
        with_res {| headersSent := true; statusCode := Some code; headers := hs;
                    written := written (res w); ended := ended (res w);
                    destroyed := destroyed (res w) |} w')
  else (Throw (ErrorObj "Invalid character in header content"), w').

(** A piece of data arriving at the response; a destroyed or ended
    response takes no more. *)
Definition res_receive (cs : list Chunk) (w : World) : World :=
  if destroyed (res w) || ended (res w) then w
  else with_res {| headersSent := headersSent (res w); statusCode := statusCode (res w);
                   headers := headers (res w);
                   written := (written (res w) ++ cs)%list;
                   ended := false; destroyed := false |} w.

Definition res_finish (w : World) : World :=
  if destroyed (res w) then w
  else with_res {| headersSent := true; statusCode := statusCode (res w);
                   headers := headers (res w); written := written (res w);
                   ended := true; destroyed := false |} w.

(** [res.end()]. *)
Definition res_end : M unit := effect (fun w => res_finish (emit EvEnd w)).

(** [res.destroy()]. *)
Definition res_destroy : M unit :=
  effect (fun w =>
    with_res {| headersSent := headersSent (res w); statusCode := statusCode (res w);
                headers := headers (res w); written := written (res w);
                ended := ended (res w); destroyed := true |} (emit EvDestroy w)).

Definition console_error (e : Thrown) : M unit := effect (emit (EvConsoleError e)).

(** [await access(path)]. *)
Definition access (p : string) : M unit := fun w =>
  let w' := emit (EvAccess p) w in
  if access_ok p w then (Ok tt, w')
  else (Throw (ErrorObj "ENOENT: no such file or directory, access"), w').

(** [createReadStream(path).pipe(res)]: the stored pieces go to the
    response, which is ended after the last one. *)
Definition pipeFileToResponse (p : string) : M unit :=
  effect (fun w =>
    match files w !! p with
    | Some cs => res_finish (res_receive cs (emit (EvCreateReadStream p) w))
    | None => emit (EvCreateReadStream p) w
    end).

(** *** The archive writer *)

Inductive Sink : Type :=
  | ToResponse
  | ToFile (p : string).

(** An archive object: the destinations it was piped to, in order. *)
Record Archive : Type := { pipes : list Sink }.

(** [archiver("zip", ...)]. *)
Definition archiver : M Archive := fun w => (Ok {| pipes := [] |}, emit EvArchiver w).

(** [archive.pipe(destination)]. *)
Definition archive_pipe (a : Archive) (s : Sink) : Archive :=
  {| pipes := (pipes a ++ [s])%list |}.

Definition deliver (cs : list Chunk) (w : World) (s : Sink) : World :=
  match s with
  | ToResponse => res_receive cs w
  | ToFile p => with_files (alter (fun old => (old ++ cs)%list) p (files w)) w
  end.

Definition close_sink (w : World) (s : Sink) : World :=
  match s with
  | ToResponse => res_finish w
  | ToFile _ => w
  end.

(** Every destination receives the same pieces in the same order. *)
Definition archive_emit (a : Archive) (cs : list Chunk) (w : World) : World :=
  fold_left (deliver cs) (pipes a) w.

(** [archive.append(body, { name })]. *)
Definition archive_append (a : Archive) (content entryName : string) : M unit :=
  effect (fun w => archive_emit a [EntryChunk entryName content] (emit (EvAppend entryName) w)).

(** [await archive.finalize()]: the trailing index is written and the
    destinations are ended, unless the writer reports a fault. *)
Definition archive_finalize (a : Archive) : M unit := fun w =>
  let w' := tick (emit EvFinalize w) in
  match finalize_fault env (clock w) with
  | Some e => (Throw e, w')
  | None => (Ok tt, fold_left close_sink (pipes a) (archive_emit a [EndOfArchive] w'))
  end.

End Platform.

(** [try { m } catch (e) { h e }]. *)
Definition try_catch {A} (m : M A) (h : Thrown -> M A) : M A :=
  fun w => match m w with
           | (Ok a, w') => (Ok a, w')
           | (Throw e, w') => h e w'
           end.

(** [Promise.all(list.map(x => limit(() => task(x))))], in the schedule
    where the limited tasks complete one after the other in list order:
    the first rejection rejects the whole, and what the tasks still in
    flight do after that comes after the caller has gone on.  How many
    tasks are in flight at once, under any schedule, is the matter of
    the module [Scheduler] below. *)
Fixpoint promiseAll_limit {A} (task : A -> M unit) (l : list A) : M unit :=
  match l with
  | [] => ret tt
  | x :: l' => task x ;; promiseAll_limit task l'
  end.

(** [x || d] and [!x] on an optional string property. *)
Definition orDefault (o : option string) (d : string) : string :=
  match o with
  | Some s => if String.eqb s "" then d else s
  | None => d
  end.

Definition isFalsy (o : option string) : bool :=
  match o with
  | Some s => String.eqb s ""
  | None => true
  end.

(** A number inside a template literal. *)
Definition showZ (z : Z) : string := NilZero.string_of_int (Z.to_int z).
Definition showNat (n : nat) : string := showZ (Z.of_nat n).

Definition dquote : string := String "034"%char EmptyString.

(** The character class of the regular expression: slash, backslash,
    question mark, percent, star, colon, bar, double quote, and the two
    angle brackets. *)
Definition reservedChars : list ascii :=
  ["/"; "\"; "?"; "%"; "*"; ":"; "|"; "034"; "<"; ">"]%char.

Definition isReserved (c : ascii) : bool := existsb (Ascii.eqb c) reservedChars.

(** [s.replace(re, dash)] for that class with the [g] flag: every
    occurrence becomes a dash. *)
Fixpoint replaceReserved (s : string) : string :=
  match s with
  | EmptyString => EmptyString
  | String c s' => String (if isReserved c then "-"%char else c) (replaceReserved s')
  end.

(** The outstanding [unlink] calls run to completion, as they do once
    the event loop gets to them. *)
Definition settle (w : World) : World :=
  with_pending [] (with_files (foldr (fun p f => delete p f) (files w) (pending w)) w).

(** The [for (const tag of tags)] loop of [getLatestVersionFromGitHub],
    the same in every variant: [Some] is its [return]. *)
Fixpoint firstTagNot1998 (tags : list Tag) : option string :=
  match tags with
  | [] => None
  | tag :: tags' =>
      let tagName := name tag in
      if negb (String.eqb tagName "v1998") then Some tagName
      else firstTagNot1998 tags'
  end.

(** ** The Node HTTP server variant *)
Module Server.

(** [const limit = pLimit(16)], one limiter for the whole module. *)
Definition limit_concurrency : nat := 16.

(** The handler's [let asset = ""; let path = "";], as the [catch]
    block finds them. *)
Record Frame : Type := { asset : string; path : string }.

(** The expression assigned to [asset]. *)
Definition assetName (owner repo version key : string) : string :=
  replaceReserved
    ("noname-asset-" ++ owner ++ "-" ++ repo ++ "-" ++ version ++ "-" ++ key ++ ".zip").

(** [join("noname", asset)] on a POSIX host; [asset] holds no separator. *)
Definition joinPath (dir file : string) : string := dir ++ "/" ++ file.

Definition tagsUrl (owner repo : string) : string :=
  "https://api.github.com/repos/" ++ owner ++ "/" ++ repo ++ "/tags".

Definition rawUrl (owner repo version file : string) : string :=
  "https://ghproxy.cc/https://raw.githubusercontent.com/"
    ++ owner ++ "/" ++ repo ++ "/" ++ version ++ "/" ++ file.

Section WithEnv.
Context (env : Env).

Definition getLatestVersionFromGitHub (owner repo : string) : M string :=
  tagsResponse <- fetch env (tagsUrl owner repo) ;;
  if negb (ok tagsResponse)
  then throw (ErrorObj "Failed to fetch tags from GitHub repository")
  else
    tags <- readJson tagsResponse ;;
    match firstTagNot1998 tags with
    | Some tagName => ret tagName
    | None => throw (ErrorObj "No valid tags found in the repository")
    end.

Definition sendZIPFile (asset : string) : M unit :=
  writeHead env 200
    [("Content-Type", "application/zip");
     ("Content-Disposition", "attachment; filename=" ++ dquote ++ asset ++ dquote)].

Definition isExist (p : string) : M bool :=
  try_catch (access p ;; ret true) (fun _ => ret false).

(** One turn of the retry loop: [Some] is the [return] inside the
    [try], [None] is falling out of it (a null body, or the empty
    [catch]). *)
Definition fetchBody_attempt (input : string) : M (option string) :=
  try_catch
    (fetchBodyResponse <- fetch env input ;;
     if negb (ok fetchBodyResponse)
     then throw (ErrorObj ("Fetch request failed with status: "
                           ++ showZ (status fetchBodyResponse)))
     else ret (body fetchBodyResponse))
    (fun _ => ret None).

(** [for (let repetition = 0; repetition < retryCount; repetition++)],
    by the number of turns left. *)
Fixpoint fetchBody_loop (input : string) (turns : nat) : M (option string) :=
  match turns with
  | O => ret None
  | S turns' =>
      r <- fetchBody_attempt input ;;
      match r with
      | Some b => ret (Some b)
      | None => fetchBody_loop input turns'
      end
  end.

Definition fetchBody (input : string) (retryCount : nat) : M string :=
  r <- fetchBody_loop input retryCount ;;
  match r with
  | Some b => ret b
  | None => throw (ErrorObj ("Failed to fetch body after "
                             ++ showNat retryCount ++ " attempts"))
  end.

(** The limited task run for one file of the list. *)
Definition downloadInto (archive : Archive) (owner repo version file : string) : M unit :=
  content <- fetchBody (rawUrl owner repo version file) 5 ;;
  archive_append archive content file.

(** The [else] branch: build the archive while answering with it. *)
Definition buildAndRespond (owner repo version : string) (fileList : list string)
    (asset path : string) : M unit :=
  sendZIPFile asset ;;
  archive <- archiver ;;
  let archive := archive_pipe archive ToResponse in
  dirExists <- isExist "noname" ;;
  (if negb dirExists then mkdir env "noname" else ret tt) ;;
  createWriteStream path ;;
  let archive := archive_pipe archive (ToFile path) in
  promiseAll_limit (downloadInto archive owner repo version) fileList ;;
  archive_finalize env archive.

(** The [if] branch: answer with the stored file. *)
Definition respondFromCache (asset path : string) : M unit :=
  sendZIPFile asset ;;
  pipeFileToResponse path.

(** [if (!version) version = await getLatestVersionFromGitHub(owner, repo)]. *)
Definition resolveVersion (version : option string) (owner repo : string) : M string :=
  if isFalsy version then getLatestVersionFromGitHub owner repo
  else ret (default "" version).

(** The [try] block, with the values [asset] and [path] hold when
    control leaves it. *)
Definition tryBlock (version : option string) (owner repo : string)
    (fileList : list string) (w : World) : Frame * (result unit * World) :=
  match resolveVersion version owner repo w with
  | (Throw e, w1) => ({| asset := ""; path := "" |}, (Throw e, w1))
  | (Ok version, w1) =>
      let asset := assetName owner repo version (generateHashFromArray fileList) in
      let path := joinPath "noname" asset in
      ({| asset := asset; path := path |},
       (cached <- isExist path ;;
        if cached then respondFromCache asset path
        else buildAndRespond owner repo version fileList asset path) w1)
  end.

(** The [catch] block. *)
Definition catchBlock (frame : Frame) (error : Thrown) : M unit :=
  console_error error ;;
  sent <- (fun w => (Ok (headersSent (res w)), w)) ;;
  (if sent then res_destroy else writeHead env 500 [] ;; res_end) ;;
  if negb (String.eqb (asset frame) "") then unlink_detached (path frame)
  else ret tt.

(** The request listener, from the HTTP method and the parsed
    payload of the request. *)
Definition nonameRequestListener (method : string) (noname : Noname) : M unit :=
  if negb (String.eqb method "POST") then writeHead env 400 [] ;; res_end
  else if negb (String.eqb (action noname) "downloadAssets")
  then writeHead env 400 [] ;; res_end
  else
    let version := version noname in
    let owner := orDefault (owner noname) "libccy" in
    let repo := orDefault (repo noname) "noname" in
    let fileList := fileList noname in
    fun w =>
      match tryBlock version owner repo fileList w with
      | (_, (Ok _, w')) => (Ok tt, w')
      | (frame, (Throw error, w')) => catchBlock frame error w'
      end.

End WithEnv.

End Server.

(** ** The fetch-API variant ([getNoname] with [fetchArrayBuffer]) *)
Module Worker.

(** [const limit = pLimit(1)]. *)
Definition limit_concurrency : nat := 1.

(** [EOL] of the [os] module, on a POSIX host. *)
Definition EOL : string := String "010"%char EmptyString.

(** What a [Response] is built from: a text, or the generated archive
    with its entries. *)
Inductive BodyInit : Type :=
  | TextBody (text : string)
  | BlobBody (entries : list (string * string)).

Record Response : Type :=
  { respStatus : Z;
    respHeaders : list (string * string);
    respBody : option BodyInit }.

(** [zip.file(name, data, options)]: the entry of that name is set,
    in place when there is one already. *)
Fixpoint zip_file (entryName data : string) (zip : list (string * string))
    : list (string * string) :=
  match zip with
  | [] => [(entryName, data)]
  | (n, d) :: zip' =>
      if String.eqb n entryName then (entryName, data) :: zip'
      else (n, d) :: zip_file entryName data zip'
  end.

Definition tagsUrl (owner repo : string) : string :=
  "https://api.github.com/repos/" ++ owner ++ "/" ++ repo ++ "/tags".

Definition rawUrl (owner repo version file : string) : string :=
  "https://raw.githubusercontent.com/"
    ++ owner ++ "/" ++ repo ++ "/" ++ version ++ "/" ++ file.

Definition messageOf (e : Thrown) : option string :=
  match e with
  | ErrorObj m => Some m
  | NonError => None
  end.

Section WithEnv.
Context (env : Env).

Definition getLatestVersionFromGitHub (owner repo : string) : M string :=
  let input := tagsUrl owner repo in
  tagsResponse <- fetch env input ;;
  if negb (ok tagsResponse)
  then throw (ErrorObj ("Failed to fetch tags from " ++ input))
  else
    tags <- readJson tagsResponse ;;
    match firstTagNot1998 tags with
    | Some tagName => ret tagName
    | None => throw (ErrorObj ("No valid tags found in " ++ input))
    end.

(** One turn of the retry loop: [inl] is the [return] inside the
    [try], [inr] the error list after the [catch]. *)
Definition fetchArrayBuffer_attempt (input : string) (errors : list string)
    : M (string + list string) :=
  try_catch
    (fetchArrayBufferResponse <- fetch env input ;;
     if negb (ok fetchArrayBufferResponse)
     then throw (ErrorObj ("Fetch request of " ++ input ++ " failed with status: "
                           ++ showZ (status fetchArrayBufferResponse)))
     else ret (inl (default "" (body fetchArrayBufferResponse))))
    (fun error =>
       match error with
       | ErrorObj m => ret (inr (errors ++ [m])%list)
       | NonError => ret (inr errors)
       end).

Fixpoint fetchArrayBuffer_loop (input : string) (turns : nat) (errors : list string)
    : M (string + list string) :=
  match turns with
  | O => ret (inr errors)
  | S turns' =>
      r <- fetchArrayBuffer_attempt input errors ;;
      match r with
      | inl buffer => ret (inl buffer)
      | inr errors' => fetchArrayBuffer_loop input turns' errors'
      end
  end.

Definition fetchArrayBuffer (input : string) (retryCount : nat) : M string :=
  r <- fetchArrayBuffer_loop input retryCount [] ;;
  match r with
  | inl buffer => ret buffer
  | inr errors =>
      let message := "Failed to fetch array buffer of " ++ input ++ " after "
                     ++ showNat retryCount ++ " attempts" in
      throw (ErrorObj
               (match errors with
                | [] => message
                | _ => message ++ String.concat "" (map (fun m => EOL ++ m) errors)
                end))
  end.

(** [Promise.all(fileList.map(file => limit(...)))] with the archive
    object the tasks fill, in list order. *)
Fixpoint downloadAll (owner repo version : string) (fileList : list string)
    (zip : list (string * string)) : M (list (string * string)) :=
  match fileList with
  | [] => ret zip
  | file :: rest =>
      arrayBuffer <- fetchArrayBuffer (rawUrl owner repo version file) 5 ;;
      downloadAll owner repo version rest (zip_file file arrayBuffer zip)
  end.

(** [headers.set(name, value)]. *)
Definition headers_set (hs : list (string * string)) (n v : string)
    : M (list (string * string)) :=
  if header_ok env v then ret (hs ++ [(n, v)])%list
  else throw (ErrorObj "Invalid header value").

(** The [try] block of [getNoname]. *)
Definition tryBlock (version : option string) (owner repo : string)
    (fileList : list string) : M Response :=
  version <- (if isFalsy version then getLatestVersionFromGitHub owner repo
              else ret (default "" version)) ;;
  zip <- downloadAll owner repo version fileList [] ;;
  headers <- headers_set [] "Content-Type" "application/zip" ;;
  headers <- headers_set headers "Content-Disposition"
               ("attachment; filename=" ++ dquote ++ "noname-asset-" ++ owner
                ++ "-" ++ repo ++ "-" ++ replaceReserved version ++ "-"
                ++ generateHashFromArray fileList ++ ".zip" ++ dquote) ;;
  ret {| respStatus := 200; respHeaders := headers;
         respBody := Some (BlobBody zip) |}.

(** Its [catch] block. *)
Definition catchBlock (error : Thrown) : M Response :=
  console_error error ;;
  ret {| respStatus := 500; respHeaders := [];
         respBody := option_map TextBody (messageOf error) |}.

Definition getNoname (noname : Noname) : M Response :=
  if negb (String.eqb (action noname) "downloadAssets")
  then ret {| respStatus := 400; respHeaders := []; respBody := None |}
  else
    let version := version noname in
    let owner := orDefault (owner noname) "libccy" in
    let repo := orDefault (repo noname) "noname" in
    let fileList := fileList noname in
    try_catch (tryBlock version owner repo fileList) catchBlock.

End WithEnv.

End Worker.

(** ** The port of the server

    The last part of [src/noname.ts] derives a port number from a
    name.  [charCodeAt] reads UTF-16 code units, so the string is taken
    as the list of its code units; the sum stays far below [2^53] for
    any string JavaScript can hold, so the arithmetic is exact. *)
Module Port.

(** The code units of a string of ASCII characters. *)
Definition codeUnits (s : string) : list N :=
  map N_of_ascii (list_ascii_of_string s).

Definition basePort : N := 1024.
Definition maxPort : N := 65535.

Definition stringToUnreservedPortNumber (str : list N) : N :=
  let total := fold_left (fun total code => (total + code)%N) str 0%N in
  let range := (maxPort - basePort)%N in
  let portNumber := (basePort + total mod range)%N in
  portNumber.

(** [const portNumber = stringToUnreservedPortNumber("noname")]. *)
Definition portNumber : N := stringToUnreservedPortNumber (codeUnits "noname").

(** The default of [createNonameServer(port = 1662)]. *)
Definition createNonameServer_defaultPort : N := 1662.

End Port.

(** ** The fetch-API variant that reads the files out of the tag's archive

    The second [getNoname] of [src/noname.ts] downloads the archive of
    the tag once, opens it with JSZip and copies the requested files
    that it finds into a new archive.  How the bytes of an archive
    decode into entries is the codec's business: [loadAsync] is any
    function from the bytes to entries, or to a thrown value. *)
Module Zipball.

(** An entry of a loaded archive: its path, whether it is a folder, and
    its bytes. *)
Record ZipObject : Type :=
  { zipName : string; zipDir : bool; zipData : string }.

(** The class of [file.replace(/[-\/\\^$*+?.()|[\]{}]/g, "\\$&")]. *)
Definition regexChars : list ascii :=
  ["-"; "/"; "\"; "^"; "$"; "*"; "+"; "?"; "."; "("; ")"; "|"; "["; "]"; "{"; "}"]%char.

Definition isRegexChar (c : ascii) : bool := existsb (Ascii.eqb c) regexChars.

(** That [replace]: a backslash goes before every character of the class. *)
Fixpoint escapeRegExp (s : string) : string :=
  match s with
  | EmptyString => EmptyString
  | String c s' =>
      if isRegexChar c then String "\"%char (String c (escapeRegExp s'))
      else String c (escapeRegExp s')
  end.

(** The source text of the regular expression built for a file. *)
Definition entryPattern (file : string) : string :=
  "^[^/]+/" ++ escapeRegExp file ++ "$".

(** Regular expressions are read in the one shape the code builds: the
    opening [^[^/]+/], then plain characters and backslash escapes of
    characters of the class, then the closing [$].  [literalToEnd]
    reads the part after the opening and gives the text it stands for;
    [None] is a pattern outside that shape. *)
Fixpoint literalToEnd (pattern : string) : option string :=
  match pattern with
  | EmptyString => None
  | String c rest =>
      if Ascii.eqb c "\"%char
      then match rest with
           | String d rest' =>
               if isRegexChar d then option_map (String d) (literalToEnd rest')
               else None
           | EmptyString => None
           end
      else if Ascii.eqb c "$"%char
      then match rest with
           | EmptyString => Some EmptyString
           | String _ _ => None
           end
      else if isRegexChar c then None
      else option_map (String c) (literalToEnd rest)
  end.

Fixpoint stripPrefix (p s : string) : option string :=
  match p with
  | EmptyString => Some s
  | String c p' =>
      match s with
      | String d s' => if Ascii.eqb c d then stripPrefix p' s' else None
      | EmptyString => None
      end
  end.

Fixpoint afterFirstSlash (s : string) : option string :=
  match s with
  | EmptyString => None
  | String c s' => if Ascii.eqb c "/"%char then Some s' else afterFirstSlash s'
  end.

(** What [^[^/]+/] leaves of a path: the text after its first slash,
    when at least one character stands before that slash. *)
Definition belowTopFolder (path : string) : option string :=
  match path with
  | EmptyString => None
  | String c _ => if Ascii.eqb c "/"%char then None else afterFirstSlash path
  end.

(** [new RegExp(pattern).test(path)] for a pattern of that shape. *)
Definition regExpTest (pattern path : string) : option bool :=
  match stripPrefix "^[^/]+/" pattern with
  | None => None
  | Some rest =>
      match literalToEnd rest with
      | None => None
      | Some text =>
          Some match belowTopFolder path with
               | Some below => String.eqb below text
               | None => false
               end
      end
  end.

(** [zip.file(regex)]: the entries that are not folders and whose path
    the expression matches, in the order of the archive. *)
Fixpoint filesMatching (pattern : string) (entries : list ZipObject)
    : option (list ZipObject) :=
  match entries with
  | [] => Some []
  | entry :: entries' =>
      match regExpTest pattern (zipName entry), filesMatching pattern entries' with
      | Some hit, Some found =>
          Some (if negb (zipDir entry) && hit then entry :: found else found)
      | _, _ => None
      end
  end.

Definition archiveUrl (owner repo version : string) : string :=
  "https://github.com/" ++ owner ++ "/" ++ repo ++ "/archive/refs/tags/"
    ++ version ++ ".zip".

Section WithEnv.
Context (env : Env) (loadAsync : string -> result (list ZipObject)).

(** The callback mapped over [fileList], on the archive being filled. *)
Definition copyFile (noname : list ZipObject) (zip : list (string * string))
    (file : string) : M (list (string * string)) :=
  match filesMatching (entryPattern file) noname with
  | None => throw (ErrorObj "Invalid regular expression")
  | Some (nonameFile :: _) => ret (Worker.zip_file file (zipData nonameFile) zip)
  | Some [] => ret zip
  end.

(** [Promise.all(fileList.map(async file => ...))], in list order. *)
Fixpoint copyAll (noname : list ZipObject) (fileList : list string)
    (zip : list (string * string)) : M (list (string * string)) :=
  match fileList with
  | [] => ret zip
  | file :: rest =>
      zip' <- copyFile noname zip file ;;
      copyAll noname rest zip'
  end.

(** The [try] block. *)
Definition tryBlock (version : option string) (owner repo : string)
    (fileList : list string) : M Worker.Response :=
  version <- (if isFalsy version then Worker.getLatestVersionFromGitHub env owner repo
              else ret (default "" version)) ;;
  response <- fetch env (archiveUrl owner repo version) ;;
  noname <- (fun w => (loadAsync (default "" (body response)), w)) ;;
  zip <- copyAll noname fileList [] ;;
  headers <- Worker.headers_set env [] "Content-Type" "application/zip" ;;
  headers <- Worker.headers_set env headers "Content-Disposition"
               ("attachment; filename=" ++ dquote ++ "noname-asset-" ++ owner
                ++ "-" ++ repo ++ "-" ++ replaceReserved version ++ "-"
                ++ generateHashFromArray fileList ++ ".zip" ++ dquote) ;;
  ret {| Worker.respStatus := 200; Worker.respHeaders := headers;
         Worker.respBody := Some (Worker.BlobBody zip) |}.

Definition getNoname (noname : Noname) : M Worker.Response :=
  if negb (String.eqb (action noname) "downloadAssets")
  then ret {| Worker.respStatus := 400; Worker.respHeaders := [];
              Worker.respBody := None |}
  else
    let version := version noname in
    let owner := orDefault (owner noname) "libccy" in
    let repo := orDefault (repo noname) "noname" in
    let fileList := fileList noname in
    try_catch (tryBlock version owner repo fileList) Worker.catchBlock.

End WithEnv.

End Zipball.

(** ** The limiter and the tasks in flight

    The server hands every file task to the one limiter of the module,
    [limit = pLimit(16)].  The limiter is the npm package p-limit: a
    count of the tasks that run and a queue of those that wait.  A
    submitted task waits in the queue; the limiter's check after a
    submission starts the first waiting task when fewer than
    [concurrency] run; when a task has ended, [next] takes it off the
    count and starts the first waiting task, if any.  A started task is
    the [async] function of the listener: from its start to its end it
    waits for one fetch at a time, the one of the current turn of the
    loop of [fetchBody].  What interleaves is left to the event
    sequence, which is arbitrary. *)
Module Scheduler.

(** A started task between two turns of [fetchBody]: the input it is
    fetching and the turns left after the current one. *)
Record Running : Type := { input : string; turnsLeft : nat }.

(** The limiter of the module and the tasks it has started: those that
    wait for their fetch, and the number of those that have ended and
    for which [next] has not run yet. *)
Record Sched : Type :=
  { activeCount : nat;
    queue : list string;
    awaiting : list Running;
    ended : nat }.

Definition idle : Sched :=
  {| activeCount := 0; queue := []; awaiting := []; ended := 0 |}.

Inductive SchedEvent : Type :=
  | Submit (inputs : list string)
  | Admit
  | Settle (i : nat) (o : FetchOutcome)
  | Next.

(** What a settled fetch means for the task that waited for it: the
    [return] of [fetchBody], one more turn, or its final [throw]. *)
Inductive TaskStep : Type :=
  | Returned (content : string)
  | Retrying (t : Running)
  | Threw.

Definition settleTask (t : Running) (o : FetchOutcome) : TaskStep :=
  match o with
  | Responded r =>
      if ok r
      then match body r with
           | Some content => Returned content
           | None =>
               match turnsLeft t with
               | O => Threw
               | S k => Retrying {| input := input t; turnsLeft := k |}
               end
           end
      else match turnsLeft t with
           | O => Threw
           | S k => Retrying {| input := input t; turnsLeft := k |}
           end
  | Rejected _ =>
      match turnsLeft t with
      | O => Threw
      | S k => Retrying {| input := input t; turnsLeft := k |}
      end
  end.

(** The limiter starts a task: it counts it, and the task issues the
    fetch of the first of its five turns. *)
Definition start (u : string) (s : Sched) : Sched :=
  {| activeCount := S (activeCount s);
     queue := queue s;
     awaiting := (awaiting s ++ [{| input := u; turnsLeft := 4 |}])%list;
     ended := ended s |}.

Definition step (ev : SchedEvent) (s : Sched) : option Sched :=
  match ev with
  | Submit inputs =>
      Some {| activeCount := activeCount s; queue := (queue s ++ inputs)%list;
              awaiting := awaiting s; ended := ended s |}
  | Admit =>
      if Nat.ltb (activeCount s) Server.limit_concurrency
      then match queue s with
           | u :: q =>
               Some (start u {| activeCount := activeCount s; queue := q;
                                awaiting := awaiting s; ended := ended s |})
           | [] => None
           end
      else None
  | Settle i o =>
      match awaiting s !! i with
      | None => None
      | Some t =>
          match settleTask t o with
          | Retrying t' =>
              Some {| activeCount := activeCount s; queue := queue s;
                      awaiting := <[i := t']> (awaiting s); ended := ended s |}
          | Returned _ | Threw =>
              Some {| activeCount := activeCount s; queue := queue s;
                      awaiting := delete i (awaiting s); ended := S (ended s) |}
          end
      end
  | Next =>
      match ended s with
      | O => None
      | S e =>
          let s' := {| activeCount := activeCount s - 1; queue := queue s;
                       awaiting := awaiting s; ended := e |} in
          match queue s with
          | u :: q =>
              Some (start u {| activeCount := activeCount s'; queue := q;
                               awaiting := awaiting s'; ended := ended s' |})
          | [] => Some s'
          end
      end
  end.

(** A sequence of events, each one enabled when its turn comes. *)
Fixpoint run (evs : list SchedEvent) (s : Sched) : option Sched :=
  match evs with
  | [] => Some s
  | ev :: evs' =>
      match step ev s with
      | Some s' => run evs' s'
      | None => None
      end
  end.

(** The fetches outstanding: one for each task that waits. *)
Definition outstanding (s : Sched) : nat := length (awaiting s).

End Scheduler.

(** ** Vocabulary for statements about runs *)

(** The owner and repository a request stands for, the [try] block of
    the server on a request, and the listener on a POST request. *)
Definition ownerOf (noname : Noname) : string := orDefault (owner noname) "libccy".
Definition repoOf (noname : Noname) : string := orDefault (repo noname) "noname".

Definition tryOf (env : Env) (noname : Noname) (w : World)
    : Server.Frame * (result unit * World) :=
  Server.tryBlock env (version noname) (ownerOf noname) (repoOf noname)
    (fileList noname) w.

Definition serve (env : Env) (noname : Noname) (w : World) : result unit * World :=
  Server.nonameRequestListener env "POST" noname w.

Definition keyOf (noname : Noname) : string := generateHashFromArray (fileList noname).

Arguments generateHashFromArray : simpl never.
Arguments keyOf : simpl never.
Arguments Server.assetName : simpl never.
Arguments Server.joinPath : simpl never.

Definition isLowerHex (c : ascii) : bool :=
  existsb (Ascii.eqb c) (list_ascii_of_string "0123456789abcdef").

(** What one turn of [fetchBody] makes of a fetch outcome: the body of
    an [ok] response that has one. *)
Definition attemptBody (o : FetchOutcome) : option string :=
  match o with
  | Responded r => if ok r then body r else None
  | Rejected _ => None
  end.

(** The world after [k] fetches of [input] in a row. *)
Definition fetches (input : string) (k : nat) (w : World) : World :=
  Nat.iter k (fun w' => tick (emit (EvFetch input) w')) w.
Arguments fetches : simpl never.

(** The entry names appended, and the inputs fetched, in a trace. *)
Definition appended (tr : list Event) : list string :=
  omap (fun e => match e with EvAppend n => Some n | _ => None end) tr.

Definition fetched (tr : list Event) : list string :=
  omap (fun e => match e with EvFetch u => Some u | _ => None end) tr.

(** A digest byte as [generateHashFromArray] writes it. *)
Definition hexByte (byte : Z) : string := padStart 2 "0"%char (toString16 byte).

(** What [fetchBody] throws when its five turns are used up. *)
Definition exhausted : Thrown := ErrorObj "Failed to fetch body after 5 attempts".

(** The archive object of a build once both destinations are piped. *)
Definition teed (path : string) : Archive :=
  archive_pipe (archive_pipe {| pipes := [] |} ToResponse) (ToFile path).

(** The steps of [Server.buildAndRespond] that come before the
    downloads: headers out, archive object made and piped to the
    response, cache directory and cache file made, archive piped to the
    cache file. *)
Definition openArchive (env : Env) (asset path : string) : M Archive :=
  Server.sendZIPFile env asset ;;
  archive <- archiver ;;
  let archive := archive_pipe archive ToResponse in
  dirExists <- Server.isExist "noname" ;;
  (if negb dirExists then mkdir env "noname" else ret tt) ;;
  createWriteStream path ;;
  ret (archive_pipe archive (ToFile path)).

Definition isEntry (c : Chunk) : Prop :=
  match c with
  | EntryChunk _ _ => True
  | EndOfArchive => False
  end.

Definition isDownloadEvent (e : Event) : Prop :=
  match e with
  | EvFetch _ | EvAppend _ => True
  | _ => False
  end.

(** What the download phase of a build may change between two worlds:
    the clock, the trace, the cache file being written, and the pieces
    received by the response, which are entries only. *)
Definition downloading (w w' : World) : Prop :=
  dirs w' = dirs w /\ pending w' = pending w /\
  headersSent (res w') = headersSent (res w) /\
  statusCode (res w') = statusCode (res w) /\
  headers (res w') = headers (res w) /\
  ended (res w') = ended (res w) /\
  destroyed (res w') = destroyed (res w) /\
  exists cs, written (res w') = (written (res w) ++ cs)%list /\ Forall isEntry cs.

(** What every step of the limiter keeps: it counts the tasks that wait
    for a fetch and those that have just ended, and never more than
    [concurrency] of them. *)
Definition counted (s : Scheduler.Sched) : Prop :=
  Scheduler.activeCount s = (length (Scheduler.awaiting s) + Scheduler.ended s)%nat /\
  (Scheduler.activeCount s <= Server.limit_concurrency)%nat.

(** The value of the [Content-Disposition] header for an artifact, and
    whether the HTTP layer takes the two headers [sendZIPFile] writes. *)
Definition disposition (asset : string) : string :=
  "attachment; filename=" ++ dquote ++ asset ++ dquote.

Definition headersAccepted (env : Env) (asset : string) : bool :=
  header_ok env "application/zip" && header_ok env (disposition asset).

Arguments disposition : simpl never.

(** The response after a successful [sendZIPFile]. *)
Definition zipHeadersSent (asset : string) (r : ServerResponse) : ServerResponse :=
  {| headersSent := true; statusCode := Some 200;
     headers := [("Content-Type", "application/zip");
                 ("Content-Disposition", disposition asset)];
     written := written r; ended := ended r; destroyed := destroyed r |}.

(** The value of a lowercase hexadecimal digit, and the bytes that a
    text of two-digit groups stands for. *)
Definition hexValue (c : ascii) : Z :=
  let n := Z.of_N (N_of_ascii c) in
  if Z.leb 48 n && Z.leb n 57 then n - 48 else n - 87.

Fixpoint fromHex (s : string) : list Z :=
  match s with
  | String hi (String lo s') => (16 * hexValue hi + hexValue lo) :: fromHex s'
  | _ => []
  end.

(** What one turn of [Worker.fetchArrayBuffer] makes of a fetch outcome:
    the buffer it returns, or the message it pushes to [errors]. *)
Definition attemptBuffer (o : FetchOutcome) : option string :=
  match o with
  | Responded r => if ok r then Some (default "" (body r)) else None
  | Rejected _ => None
  end.

Definition attemptError (input : string) (o : FetchOutcome) : option string :=
  match o with
  | Responded r =>
      if ok r then None
      else Some ("Fetch request of " ++ input ++ " failed with status: "
                 ++ showZ (status r))
  | Rejected (ErrorObj m) => Some m
  | Rejected NonError => None
  end.

(** The messages collected over [k] fetches of [input] from clock [t],
    and what [Worker.fetchArrayBuffer] throws with them. *)
Definition collected (env : Env) (input : string) (t k : nat) : list string :=
  omap (fun t' => attemptError input (net env t' input)) (seq t k).


(** The version a request to a fetch-API variant is for. *)
Definition versionOf (env : Env) (noname : Noname) : M string :=
  if isFalsy (version noname)
  then Worker.getLatestVersionFromGitHub env (ownerOf noname) (repoOf noname)
  else ret (default "" (version noname)).



(** The file name the fetch-API variants put in [Content-Disposition]. *)
Definition workerFileName (owner repo version key : string) : string :=
  "noname-asset-" ++ owner ++ "-" ++ repo ++ "-" ++ replaceReserved version
    ++ "-" ++ key ++ ".zip".

Definition isClean (s : string) : bool :=
  forallb (fun c => negb (isReserved c)) (list_ascii_of_string s).



(** Two worlds with the same files, directories, outstanding removals
    and response object; and a later world whose trace holds at most
    [budget] more fetches. *)
Definition sameDisk (w w' : World) : Prop :=
  files w' = files w /\ dirs w' = dirs w /\ pending w' = pending w /\ res w' = res w.

Definition fetchesWithin (budget : nat) (w w' : World) : Prop :=
  exists tr, trace w' = (trace w ++ tr)%list /\ (length (fetched tr) <= budget)%nat.

(** The number of fetches a world has seen. *)
Definition fetchCount (w : World) : nat := length (fetched (trace w)).

(** ** Sample environments, requests and worlds *)
Module Sample.

Definition mkTag (n : string) : Tag :=
  {| name := n; zipball_url := ""; tarball_url := "";
     commit := {| sha := ""; url := "" |}; node_id := "" |}.

Definition found (content : string) : FetchResponse :=
  {| ok := true; status := 200; body := Some content;
     json := Throw (ErrorObj "Unexpected token in JSON") |}.

Definition notFound : FetchResponse :=
  {| ok := false; status := 404; body := Some "404: Not Found";
     json := Throw (ErrorObj "Unexpected token in JSON") |}.

Definition tagList (names : list string) : FetchResponse :=
  {| ok := true; status := 200; body := Some "[...]";
     json := Ok (map mkTag names) |}.

Definition isTagsQuery (input : string) : bool :=
  String.prefix "https://api.github.com/" input.

(** Header values made of printable ASCII and tabs only. *)
Definition printable (v : string) : bool :=
  forallb (fun c => let n := nat_of_ascii c in
                    Nat.eqb n 9 || (Nat.leb 32 n && Nat.leb n 126))
          (list_ascii_of_string v).

(** Tags are listed, every file is there. *)
Definition online : Env :=
  {| net := fun _ input =>
              if isTagsQuery input
              then Responded (tagList ["v1998"; "v2.0"; "v1.0"])
              else Responded (found ("content of " ++ input));
     header_ok := printable;
     mkdir_fault := fun _ => None;
     finalize_fault := fun _ => None |}.

(** Tags are listed, no file is there. *)
Definition filesMissing : Env :=
  {| net := fun _ input =>
              if isTagsQuery input
              then Responded (tagList ["v1998"; "v2.0"; "v1.0"])
              else Responded notFound;
     header_ok := printable;
     mkdir_fault := fun _ => None;
     finalize_fault := fun _ => None |}.


(** Every request is answered 404, the tag list too. *)
Definition allMissing : Env :=
  {| net := fun _ _ => Responded notFound;
     header_ok := printable;
     mkdir_fault := fun _ => None;
     finalize_fault := fun _ => None |}.

(** No network at all. *)
Definition offline : Env :=
  {| net := fun _ _ => Rejected (ErrorObj "fetch failed");
     header_ok := printable;
     mkdir_fault := fun _ => None;
     finalize_fault := fun _ => None |}.

Definition emptyDisk : World :=
  {| files := ∅; dirs := ∅; pending := []; clock := 0; trace := [];
     res := freshResponse |}.

Definition request (version : option string) (fileList : list string) : Noname :=
  {| action := "downloadAssets"; owner := Some "o"; repo := Some "r";
     version := version; fileList := fileList |}.

(** A disk that already holds one finished artifact at [p]. *)
Definition diskWith (p : string) (stored : list Chunk) : World :=
  {| files := {[ p := stored ]}; dirs := {[ "noname" ]}; pending := [];
     clock := 0; trace := []; res := freshResponse |}.

Definition newline : string := String "010"%char EmptyString.

(** A request whose version holds a line feed, the cache path it
    stands for, and a disk on which that artifact is stored. *)
Definition oddRequest : Noname := request (Some ("v1" ++ newline)) ["a.txt"].

Definition oddPath : string :=
  Server.joinPath "noname"
    (Server.assetName "o" "r" ("v1" ++ newline) (generateHashFromArray ["a.txt"])).

Definition stocked : World :=
  diskWith oddPath [EntryChunk "a.txt" "stored bytes"; EndOfArchive].

(** Twenty inputs, more than the limiter lets run. *)
Definition twentyInputs : list string :=
  map (fun n => "file" ++ showNat n) (seq 0 20).

(** A plain request for one file of version v1, and its cache path. *)
Definition plainRequest : Noname := request (Some "v1") ["a.txt"].

Definition plainPath : string :=
  Server.joinPath "noname"
    (Server.assetName "o" "r" "v1" (generateHashFromArray ["a.txt"])).



End Sample.

(** * Properties *)

(** ** The cache key *)

Example sha256_constants :
  nth 0 SHA256.K 0 = 0x428a2f98 /\ nth 63 SHA256.K 0 = 0xc67178f2 /\
  length SHA256.K = 64%nat /\
  SHA256.ra SHA256.H0 = 0x6a09e667 /\ SHA256.rh SHA256.H0 = 0x5be0cd19.
Proof. vm_compute. repeat split. Qed.

Example sha256_abc :
  generateHashFromArray ["a"; "bc"] =
  "ba7816bf8f01cfea414140de5dae2223b00361a396177a9cb410ff61f20015ad".
Proof. vm_compute. reflexivity. Qed.

Example sha256_two_blocks :
  generateHashFromArray
    ["abcdbcdecdefdefgefghfghighijhijkijkljklmklmnlmnomnopnopq"] =
  "248d6a61d20638b8e5c026930c3e6039a33ce45964ff2167f6ecedd419db06c1".
Proof. vm_compute. reflexivity. Qed.

Lemma hexByte_table :
  forallb (fun n => let s := hexByte (Z.of_nat n) in
                    Nat.eqb (String.length s) 2
                    && forallb isLowerHex (list_ascii_of_string s))
          (seq 0 256) = true.
Proof. vm_compute. reflexivity. Qed.

Lemma hexByte_shape (b : Z) :
  0 <= b < 256 ->
  String.length (hexByte b) = 2%nat /\
  forallb isLowerHex (list_ascii_of_string (hexByte b)) = true.
Proof.
  intros Hb.
  pose proof hexByte_table as T.
  rewrite forallb_forall in T.
  specialize (T (Z.to_nat b)).
  rewrite Z2Nat.id in T by lia.
  assert (Hin : In (Z.to_nat b) (seq 0 256)) by (apply in_seq; lia).
  apply T in Hin. apply andb_true_iff in Hin as [H1 H2].
  apply Nat.eqb_eq in H1. auto.
Qed.

Lemma be_bytes_range (n : nat) (x b : Z) :
  In b (SHA256.be_bytes n x) -> 0 <= b < 256.
Proof.
  unfold SHA256.be_bytes. rewrite in_map_iff. intros (i & <- & _).
  apply Z.mod_pos_bound. lia.
Qed.

Lemma be_bytes_length (n : nat) (x : Z) : length (SHA256.be_bytes n x) = n.
Proof. unfold SHA256.be_bytes. rewrite length_map, length_rev, length_seq. reflexivity. Qed.

Lemma digest_length (msg : list Z) : length (SHA256.digest msg) = 32%nat.
Proof.
  unfold SHA256.digest, SHA256.digest_bytes. cbn [map concat].
  rewrite !length_app, !be_bytes_length. reflexivity.
Qed.

Lemma digest_range (msg : list Z) (b : Z) : In b (SHA256.digest msg) -> 0 <= b < 256.
Proof.
  unfold SHA256.digest, SHA256.digest_bytes. rewrite in_concat.
  intros (l & Hl & Hb). apply in_map_iff in Hl as (x & <- & _).
  eapply be_bytes_range; eauto.
Qed.

Lemma append_cons (c : ascii) (s1 s2 : string) :
  String c s1 ++ s2 = String c (s1 ++ s2).
Proof. reflexivity. Qed.

Lemma append_nil_r (s : string) : s ++ "" = s.
Proof. induction s as [|c s IH]; [reflexivity|]. now rewrite append_cons, IH. Qed.

Lemma string_length_app (s1 s2 : string) :
  String.length (s1 ++ s2) = (String.length s1 + String.length s2)%nat.
Proof.
  induction s1 as [|c s1 IH]; [reflexivity|].
  rewrite append_cons. cbn. now rewrite IH.
Qed.

Lemma list_ascii_app (s1 s2 : string) :
  list_ascii_of_string (s1 ++ s2) =
  (list_ascii_of_string s1 ++ list_ascii_of_string s2)%list.
Proof.
  induction s1 as [|c s1 IH]; [reflexivity|].
  rewrite append_cons. cbn. now rewrite IH.
Qed.

Lemma concat_empty_cons (s : string) (l : list string) :
  String.concat "" (s :: l) = s ++ String.concat "" l.
Proof.
  destruct l as [|s' l]; cbn [String.concat].
  - now rewrite append_nil_r.
  - reflexivity.
Qed.

Lemma concat_empty_length (l : list string) :
  String.length (String.concat "" l) = list_sum (map String.length l).
Proof.
  induction l as [|s l IH]; [reflexivity|].
  rewrite concat_empty_cons, string_length_app, IH. reflexivity.
Qed.

Lemma concat_empty_chars (P : ascii -> bool) (l : list string) :
  Forall (fun s => forallb P (list_ascii_of_string s) = true) l ->
  forallb P (list_ascii_of_string (String.concat "" l)) = true.
Proof.
  induction 1 as [|s l Hs _ IH]; [reflexivity|].
  rewrite concat_empty_cons, list_ascii_app, forallb_app, Hs, IH. reflexivity.
Qed.

Lemma generateHashFromArray_length (array : list string) :
  String.length (generateHashFromArray array) = 64%nat.
Proof.
  unfold generateHashFromArray. rewrite concat_empty_length, map_map.
  pose proof (digest_length (encode (join_empty array))) as L.
  pose proof (digest_range (encode (join_empty array))) as R.
  revert L R. generalize (SHA256.digest (encode (join_empty array))) as bs.
  intros bs L R.
  assert (E : map (fun x => String.length (padStart 2 "0"%char (toString16 x))) bs
              = repeat 2%nat (length bs)).
  { clear L. induction bs as [|b bs IH]; [reflexivity|].
    cbn [map length repeat]. rewrite IH by (intros; apply R; now right).
    f_equal. apply (hexByte_shape b), R. now left. }
  rewrite E, L. reflexivity.
Qed.

Lemma generateHashFromArray_hex (array : list string) :
  forallb isLowerHex (list_ascii_of_string (generateHashFromArray array)) = true.
Proof.
  unfold generateHashFromArray. apply concat_empty_chars.
  rewrite Forall_map. apply Forall_forall. intros b Hb.
  apply (hexByte_shape b). eapply digest_range. apply list_elem_of_In. exact Hb.
Qed.

(** C2 (as the code has it).  The cache key is a function of the
    concatenation of the names: lists with the same concatenation,
    equal lists among them, get the same key, and the key is 64
    lowercase hexadecimal digits. *)
Theorem cache_key_of_concatenation (l1 l2 : list string) :
  join_empty l1 = join_empty l2 ->
  generateHashFromArray l1 = generateHashFromArray l2 /\
  String.length (generateHashFromArray l1) = 64%nat /\
  forallb isLowerHex (list_ascii_of_string (generateHashFromArray l1)) = true.
Proof.
  intros E. split; [|split].
  - unfold generateHashFromArray. now rewrite E.
  - apply generateHashFromArray_length.
  - apply generateHashFromArray_hex.
Qed.

Lemma cache_key_of_concatenation_witness :
  generateHashFromArray ["ab"; "c"] = generateHashFromArray ["a"; "bc"] /\
  String.length (generateHashFromArray ["ab"; "c"]) = 64%nat /\
  forallb isLowerHex (list_ascii_of_string (generateHashFromArray ["ab"; "c"])) = true.
Proof. apply (cache_key_of_concatenation ["ab"; "c"] ["a"; "bc"]). reflexivity. Defined.

(** C2, refuted as stated: two different lists, one a reordering of
    the other, with the same key. *)
Lemma cache_key_collision :
  ["a"; "aa"] <> ["aa"; "a"] /\
  Permutation ["a"; "aa"] ["aa"; "a"] /\
  generateHashFromArray ["a"; "aa"] = generateHashFromArray ["aa"; "a"].
Proof.
  split; [discriminate|]. split; [apply perm_swap|]. reflexivity.
Qed.

(** ** The artifact name *)

Lemma isReserved_spec (c : ascii) : isReserved c = true <-> In c reservedChars.
Proof.
  unfold isReserved. rewrite existsb_exists. split.
  - intros (x & Hx & E). apply Ascii.eqb_eq in E. now subst.
  - intros H. exists c. split; [exact H | apply Ascii.eqb_refl].
Qed.

Lemma replaceReserved_chars (s : string) :
  list_ascii_of_string (replaceReserved s) =
  map (fun c => if isReserved c then "-"%char else c) (list_ascii_of_string s).
Proof. induction s as [|c s IH]; cbn; [reflexivity | now rewrite IH]. Qed.

Lemma replaceReserved_clean (s : string) :
  forallb (fun c => negb (isReserved c)) (list_ascii_of_string (replaceReserved s)) = true.
Proof.
  induction s as [|c s IH]; [reflexivity|].
  cbn [replaceReserved list_ascii_of_string forallb]. rewrite IH, andb_true_r.
  destruct (isReserved c) eqn:E; [reflexivity | now rewrite E].
Qed.

(** C6.  The artifact name is the composed string
    noname-asset-OWNER-REPO-VERSION-KEY.zip in which every character of
    the class, wherever it stands, is replaced by a dash and every
    other character is kept; no character of the class is left in it;
    it is what the listener assigns to [asset] once the version is
    resolved; and the example of the specification comes out as
    stated. *)
Theorem artifact_name_sanitized (owner repo version key : string) :
  let composed := "noname-asset-" ++ owner ++ "-" ++ repo ++ "-" ++ version
                  ++ "-" ++ key ++ ".zip" in
  let asset := Server.assetName owner repo version key in
  list_ascii_of_string asset =
    map (fun c => if isReserved c then "-"%char else c) (list_ascii_of_string composed) /\
  (forall c, isReserved c = true <-> In c reservedChars) /\
  forallb (fun c => negb (isReserved c)) (list_ascii_of_string asset) = true /\
  (forall env version0 fileList w,
     match Server.resolveVersion env version0 owner repo w with
     | (Ok v, _) =>
         Server.asset (fst (Server.tryBlock env version0 owner repo fileList w)) =
         Server.assetName owner repo v (generateHashFromArray fileList)
     | (Throw _, _) =>
         Server.asset (fst (Server.tryBlock env version0 owner repo fileList w)) = ""
     end) /\
  Server.assetName "o" "r" "a/b?c" "deadbeef" = "noname-asset-o-r-a-b-c-deadbeef.zip".
Proof.
  cbv zeta. split; [apply replaceReserved_chars|].
  split; [apply isReserved_spec|].
  split; [apply replaceReserved_clean|].
  split; [|reflexivity].
  intros env version0 fileList w. unfold Server.tryBlock.
  destruct (Server.resolveVersion env version0 owner repo w) as [[v|e] w1]; reflexivity.
Qed.

(** ** Version resolution *)

Lemma firstTagNot1998_Some (tags : list Tag) (v : string) :
  firstTagNot1998 tags = Some v <->
  exists pre t post, tags = (pre ++ t :: post)%list /\
    Forall (fun x => name x = "v1998") pre /\ name t = v /\ v <> "v1998".
Proof.
  induction tags as [|tag tags IH]; cbn [firstTagNot1998].
  - split; [discriminate|]. intros (pre & t & post & E & _). now destruct pre.
  - destruct (String.eqb_spec (name tag) "v1998") as [E|NE]; cbn [negb].
    + rewrite IH. split.
      * intros (pre & t & post & -> & Hpre & Ht & Hv).
        exists (tag :: pre), t, post. repeat split; auto.
      * intros (pre & t & post & Etags & Hpre & Ht & Hv).
        destruct pre as [|p pre]; cbn in Etags; injection Etags as -> ->.
        -- congruence.
        -- exists pre, t, post. apply Forall_cons in Hpre as [_ Hpre]. auto.
    + split.
      * intros [= <-]. exists [], tag, tags. repeat split; auto.
      * intros (pre & t & post & Etags & Hpre & Ht & Hv).
        destruct pre as [|p pre]; cbn in Etags; injection Etags as -> ->.
        -- now subst.
        -- apply Forall_cons in Hpre as [Hp _]. congruence.
Qed.

Lemma firstTagNot1998_None (tags : list Tag) :
  firstTagNot1998 tags = None <-> Forall (fun x => name x = "v1998") tags.
Proof.
  induction tags as [|tag tags IH]; cbn [firstTagNot1998].
  - split; auto.
  - destruct (String.eqb_spec (name tag) "v1998") as [E|NE]; cbn [negb].
    + rewrite IH. split; [auto|]. intros H. now apply Forall_cons in H as [_ H].
    + split; [discriminate|]. intros H. apply Forall_cons in H as [H _]. congruence.
Qed.

(** C5.  Without a version in the request, resolution is one fetch of
    the tag list and nothing else.  It yields [v] exactly when the
    response is [ok] and its list has a first tag, in the order
    received, whose name is not v1998, that name being [v].  It throws
    when the fetch is rejected, when the response is not [ok], and when
    every tag of the list, an empty list included, is named v1998.
    On the list v1998, v2.0, v1.0 it yields v2.0. *)
Theorem latest_version_skips_v1998 (env : Env) (owner repo : string) (w : World) :
  let input := Server.tagsUrl owner repo in
  let run := Server.resolveVersion env None owner repo w in
  snd run = tick (emit (EvFetch input) w) /\
  (forall v, fst run = Ok v <->
     exists r pre t post,
       net env (clock w) input = Responded r /\ ok r = true /\
       json r = Ok (pre ++ t :: post)%list /\
       Forall (fun x => name x = "v1998") pre /\ name t = v /\ v <> "v1998") /\
  ((forall r, net env (clock w) input <> Responded r) -> exists e, fst run = Throw e) /\
  (forall r, net env (clock w) input = Responded r -> ok r = false ->
     fst run = Throw (ErrorObj "Failed to fetch tags from GitHub repository")) /\
  (forall r tags, net env (clock w) input = Responded r -> ok r = true ->
     json r = Ok tags -> Forall (fun x => name x = "v1998") tags ->
     fst run = Throw (ErrorObj "No valid tags found in the repository")) /\
  fst (Server.resolveVersion Sample.online None "libccy" "noname" Sample.emptyDisk)
    = Ok "v2.0".
Proof.
  cbv zeta.
  unfold Server.resolveVersion, isFalsy, Server.getLatestVersionFromGitHub,
    bind, fetch, readJson, throw, ret.
  destruct (net env (clock w) (Server.tagsUrl owner repo)) as [e|r] eqn:N.
  - cbn. split; [reflexivity|]. split.
    { intros v. split; [discriminate|]. intros (r & ? & ? & ? & [=] & _). }
    split; [eauto|]. split; [discriminate|]. split; [discriminate|reflexivity].
  - destruct (ok r) eqn:O; cbn [negb].
    + destruct (json r) as [tags|e] eqn:J.
      * destruct (firstTagNot1998 tags) as [v0|] eqn:F; cbn.
        -- split; [reflexivity|]. split.
           { intros v. split.
             - intros [= <-]. apply firstTagNot1998_Some in F as (pre & t & post & -> & ?).
               exists r, pre, t, post. auto.
             - intros (r' & pre & t & post & [= <-] & _ & J' & H).
               rewrite J in J'. injection J' as ->.
               assert (firstTagNot1998 (pre ++ t :: post) = Some v) as F'
                 by (apply firstTagNot1998_Some; eauto).
               congruence. }
           split; [intros H; now destruct (H r)|].
           split; [intros r' [= <-]; congruence|].
           split; [|reflexivity].
           intros r' tags' [= <-] _ J' H. rewrite J in J'. injection J' as <-.
           apply firstTagNot1998_None in H. congruence.
        -- split; [reflexivity|]. split.
           { intros v. split; [discriminate|].
             intros (r' & pre & t & post & [= <-] & _ & J' & H).
             rewrite J in J'. injection J' as ->.
             assert (firstTagNot1998 (pre ++ t :: post) = Some v) as F'
               by (apply firstTagNot1998_Some; eauto).
             congruence. }
           split; [eauto|]. split; [intros r' [= <-]; congruence|].
           split; [reflexivity|reflexivity].
      * cbn. split; [reflexivity|]. split.
        { intros v. split; [discriminate|].
          intros (r' & pre & t & post & [= <-] & _ & J' & H). congruence. }
        split; [eauto|]. split; [intros r' [= <-]; congruence|].
        split; [|reflexivity]. intros r' tags' [= <-] _ J'. congruence.
    + cbn. split; [reflexivity|]. split.
      { intros v. split; [discriminate|].
        intros (r' & pre & t & post & [= <-] & O' & _). congruence. }
      split; [eauto|]. split; [reflexivity|]. split; [|reflexivity].
      intros r' tags' [= <-]. congruence.
Qed.

(** *** Fetch with retry *)

Lemma fetches_S (input : string) (k : nat) (w : World) :
  fetches input (S k) w = fetches input k (tick (emit (EvFetch input) w)).
Proof.
  unfold fetches. now rewrite Nat.iter_succ_r.
Qed.

Lemma fetches_fields (input : string) (k : nat) (w : World) :
  files (fetches input k w) = files w /\
  dirs (fetches input k w) = dirs w /\
  pending (fetches input k w) = pending w /\
  res (fetches input k w) = res w /\
  clock (fetches input k w) = (clock w + k)%nat /\
  trace (fetches input k w) = (trace w ++ repeat (EvFetch input) k)%list.
Proof.
  revert w. induction k as [|k IH]; intros w.
  - unfold fetches. cbn. rewrite app_nil_r. repeat split; lia.
  - rewrite fetches_S. destruct (IH (tick (emit (EvFetch input) w))) as (F & D & P & R & C & T).
    rewrite F, D, P, R, C, T. cbn. rewrite <- app_assoc. repeat split; lia.
Qed.

Lemma fetchBody_attempt_eq (env : Env) (input : string) (w : World) :
  Server.fetchBody_attempt env input w =
  (Ok (attemptBody (net env (clock w) input)), tick (emit (EvFetch input) w)).
Proof.
  unfold Server.fetchBody_attempt, try_catch, bind, fetch, throw, ret, attemptBody.
  destruct (net env (clock w) input) as [e|r]; [reflexivity|].
  destruct (ok r); reflexivity.
Qed.

Lemma fetchBody_loop_exhausted (env : Env) (input : string) (n : nat) (w : World) :
  (forall j, (j < n)%nat -> attemptBody (net env (clock w + j) input) = None) ->
  Server.fetchBody_loop env input n w = (Ok None, fetches input n w).
Proof.
  revert w. induction n as [|n IH]; intros w H; [reflexivity|].
  cbn [Server.fetchBody_loop]. unfold bind at 1. rewrite fetchBody_attempt_eq.
  pose proof (H 0%nat ltac:(lia)) as H0. rewrite Nat.add_0_r in H0. rewrite H0.
  rewrite fetches_S. apply IH. intros j Hj. cbn.
  replace (S (clock w + j)) with (clock w + S j)%nat by lia. apply H. lia.
Qed.

Lemma fetchBody_loop_first (env : Env) (input : string) (n k : nat) (b : string) (w : World) :
  (k < n)%nat ->
  (forall j, (j < k)%nat -> attemptBody (net env (clock w + j) input) = None) ->
  attemptBody (net env (clock w + k) input) = Some b ->
  Server.fetchBody_loop env input n w = (Ok (Some b), fetches input (S k) w).
Proof.
  revert k w. induction n as [|n IH]; intros k w Hk Hfail Hok; [lia|].
  cbn [Server.fetchBody_loop]. unfold bind at 1. rewrite fetchBody_attempt_eq.
  destruct k as [|k].
  - rewrite Nat.add_0_r in Hok. rewrite Hok. reflexivity.
  - pose proof (Hfail 0%nat ltac:(lia)) as H0. rewrite Nat.add_0_r in H0. rewrite H0.
    rewrite fetches_S. apply IH; [lia| |].
    + intros j Hj. cbn. replace (S (clock w + j)) with (clock w + S j)%nat by lia.
      apply Hfail. lia.
    + cbn. replace (S (clock w + k)) with (clock w + S k)%nat by lia. exact Hok.
Qed.

(** The first turn among [n] whose fetch yields a body, if any. *)
Lemma first_success_dec (env : Env) (input : string) (t n : nat) :
  (exists k b, (k < n)%nat /\
     (forall j, (j < k)%nat -> attemptBody (net env (t + j) input) = None) /\
     attemptBody (net env (t + k) input) = Some b) \/
  (forall j, (j < n)%nat -> attemptBody (net env (t + j) input) = None).
Proof.
  induction n as [|n [(k & b & Hk & Hf & Hs)|Hnone]].
  - right. intros j Hj. lia.
  - left. exists k, b. split; [lia|auto].
  - destruct (attemptBody (net env (t + n) input)) as [b|] eqn:E.
    + left. exists n, b. auto.
    + right. intros j Hj. destruct (Nat.eq_dec j n) as [->|]; [exact E|apply Hnone; lia].
Qed.

Lemma fetchBody_cases (env : Env) (input : string) (w : World) :
  (exists k b, (k < 5)%nat /\
     (forall j, (j < k)%nat -> attemptBody (net env (clock w + j) input) = None) /\
     attemptBody (net env (clock w + k) input) = Some b /\
     Server.fetchBody env input 5 w = (Ok b, fetches input (S k) w)) \/
  ((forall j, (j < 5)%nat -> attemptBody (net env (clock w + j) input) = None) /\
   Server.fetchBody env input 5 w = (Throw exhausted, fetches input 5 w)).
Proof.
  destruct (first_success_dec env input (clock w) 5) as [(k & b & Hk & Hf & Hs)|Hnone].
  - left. exists k, b. repeat split; auto.
    unfold Server.fetchBody, bind. now rewrite (fetchBody_loop_first env input 5 k b).
  - right. split; [exact Hnone|].
    unfold Server.fetchBody, bind. now rewrite fetchBody_loop_exhausted.
Qed.

(** *** The download phase of a build *)

Lemma downloading_refl (w : World) : downloading w w.
Proof.
  unfold downloading. repeat split; try reflexivity.
  exists []. now rewrite app_nil_r.
Qed.

Lemma downloading_trans (w1 w2 w3 : World) :
  downloading w1 w2 -> downloading w2 w3 -> downloading w1 w3.
Proof.
  intros (D1 & P1 & H1 & S1 & HH1 & E1 & X1 & cs1 & W1 & F1)
         (D2 & P2 & H2 & S2 & HH2 & E2 & X2 & cs2 & W2 & F2).
  unfold downloading. repeat split; try congruence.
  exists (cs1 ++ cs2)%list. split.
  - rewrite W2, W1. now rewrite app_assoc.
  - apply Forall_app. auto.
Qed.

Lemma downloading_fetches (input : string) (k : nat) (w : World) :
  downloading w (fetches input k w).
Proof.
  destruct (fetches_fields input k w) as (F & D & P & R & C & T).
  unfold downloading. rewrite R, D, P. repeat split; try reflexivity.
  exists []. now rewrite app_nil_r.
Qed.

Lemma archive_emit_teed (path : string) (cs : list Chunk) (w : World) :
  archive_emit (teed path) cs w =
  with_files (alter (fun old => (old ++ cs)%list) path (files (res_receive cs w)))
             (res_receive cs w).
Proof. reflexivity. Qed.

Lemma downloading_append (path file content : string) (w : World) :
  downloading w (archive_emit (teed path) [EntryChunk file content] (emit (EvAppend file) w)).
Proof.
  rewrite archive_emit_teed. unfold res_receive. cbn.
  destruct (destroyed (res w) || ended (res w)) eqn:E; cbn.
  - unfold downloading; cbn. repeat split; try reflexivity.
    exists []. now rewrite app_nil_r.
  - apply orb_false_iff in E as [E1 E2].
    unfold downloading; cbn. repeat split; try congruence.
    exists [EntryChunk file content]. split; [reflexivity|]. repeat constructor.
Qed.

Lemma downloadInto_cases (env : Env) (path owner repo version file : string) (w : World) :
  let input := Server.rawUrl owner repo version file in
  (exists k b, (k < 5)%nat /\
     (forall j, (j < k)%nat -> attemptBody (net env (clock w + j) input) = None) /\
     attemptBody (net env (clock w + k) input) = Some b /\
     Server.downloadInto env (teed path) owner repo version file w =
       (Ok tt, archive_emit (teed path) [EntryChunk file b]
                 (emit (EvAppend file) (fetches input (S k) w)))) \/
  ((forall j, (j < 5)%nat -> attemptBody (net env (clock w + j) input) = None) /\
   Server.downloadInto env (teed path) owner repo version file w =
     (Throw exhausted, fetches input 5 w)).
Proof.
  cbv zeta. unfold Server.downloadInto, bind.
  destruct (fetchBody_cases env (Server.rawUrl owner repo version file) w)
    as [(k & b & Hk & Hf & Hs & E)|(Hnone & E)]; rewrite E.
  - left. exists k, b. repeat split; auto.
  - right. split; auto.
Qed.

Lemma appended_app (t1 t2 : list Event) :
  appended (t1 ++ t2) = (appended t1 ++ appended t2)%list.
Proof. unfold appended. apply omap_app. Qed.

Lemma appended_fetches (input : string) (k : nat) :
  appended (repeat (EvFetch input) k) = [].
Proof. induction k as [|k IH]; [reflexivity | exact IH]. Qed.

(** One limited task: what it leaves alone, and what it adds to the trace. *)
Lemma downloadInto_step (env : Env) (path owner repo version file : string) (w : World) :
  let run := Server.downloadInto env (teed path) owner repo version file w in
  downloading w (snd run) /\
  exists tr, trace (snd run) = (trace w ++ tr)%list /\ Forall isDownloadEvent tr /\
    match fst run with
    | Ok _ => appended tr = [file]
    | Throw e =>
        e = exhausted /\ appended tr = [] /\
        (forall j, (j < 5)%nat ->
           attemptBody (net env (clock w + j) (Server.rawUrl owner repo version file)) = None) /\
        snd run = fetches (Server.rawUrl owner repo version file) 5 w
    end.
Proof.
  cbv zeta.
  destruct (downloadInto_cases env path owner repo version file w)
    as [(k & b & Hk & Hf & Hs & E)|(Hnone & E)]; rewrite E; cbn [fst snd].
  - split.
    + eapply downloading_trans; [apply downloading_fetches | apply downloading_append].
    + destruct (fetches_fields (Server.rawUrl owner repo version file) (S k) w)
        as (_ & _ & _ & _ & _ & T).
      exists (repeat (EvFetch (Server.rawUrl owner repo version file)) (S k) ++ [EvAppend file])%list.
      split; [|split].
      * rewrite archive_emit_teed. unfold res_receive.
        destruct (destroyed _ || ended _); cbn; rewrite T; now rewrite <- app_assoc.
      * apply Forall_app. split; [|repeat constructor].
        apply Forall_forall. intros e He. apply list_elem_of_In, repeat_spec in He.
        now subst.
      * rewrite appended_app, appended_fetches. reflexivity.
  - split; [apply downloading_fetches|].
    destruct (fetches_fields (Server.rawUrl owner repo version file) 5 w)
      as (_ & _ & _ & _ & _ & T).
    exists (repeat (EvFetch (Server.rawUrl owner repo version file)) 5).
    split; [exact T|]. split.
    + apply Forall_forall. intros e He. apply list_elem_of_In, repeat_spec in He.
      now subst.
    + repeat split; auto.
Qed.

(** The whole phase. *)
Lemma downloads_spec (env : Env) (path owner repo version : string)
    (fileList : list string) (w : World) :
  let run := promiseAll_limit (Server.downloadInto env (teed path) owner repo version)
               fileList w in
  downloading w (snd run) /\
  exists tr, trace (snd run) = (trace w ++ tr)%list /\ Forall isDownloadEvent tr /\
    match fst run with
    | Ok _ => appended tr = fileList
    | Throw e =>
        e = exhausted /\
        exists pre file post, fileList = (pre ++ file :: post)%list /\ appended tr = pre
    end.
Proof.
  cbv zeta. revert w. induction fileList as [|file rest IH]; intros w.
  - cbn. split; [apply downloading_refl|]. exists []. rewrite app_nil_r. auto.
  - cbn [promiseAll_limit]. unfold bind at 1 2 3.
    destruct (downloadInto_step env path owner repo version file w)
      as (D1 & tr1 & T1 & F1 & R1).
    destruct (Server.downloadInto env (teed path) owner repo version file w)
      as [[[]|e] w1]; cbn [fst snd] in *.
    + destruct (IH w1) as (D2 & tr2 & T2 & F2 & R2).
      split; [eapply downloading_trans; eauto|].
      exists (tr1 ++ tr2)%list. split; [rewrite T2, T1; now rewrite app_assoc|].
      split; [apply Forall_app; auto|].
      destruct (fst (promiseAll_limit _ rest w1)) as [[]|e].
      * rewrite appended_app, R1, R2. reflexivity.
      * destruct R2 as (-> & pre & f & post & -> & A). split; [reflexivity|].
        exists (file :: pre), f, post. split; [reflexivity|].
        rewrite appended_app, R1, A. reflexivity.
    + destruct R1 as (-> & A & _). split; [exact D1|].
      exists tr1. repeat split; auto.
      exists [], file, rest. auto.
Qed.

(** *** The handler, step by step *)

Lemma resolveVersion_frame (env : Env) (version : option string) (owner repo : string)
    (w : World) :
  let w1 := snd (Server.resolveVersion env version owner repo w) in
  files w1 = files w /\ dirs w1 = dirs w /\ pending w1 = pending w /\ res w1 = res w /\
  (trace w1 = trace w \/ trace w1 = (trace w ++ [EvFetch (Server.tagsUrl owner repo)])%list).
Proof.
  cbv zeta. unfold Server.resolveVersion.
  destruct (isFalsy version); [|cbn; auto 10].
  unfold Server.getLatestVersionFromGitHub, bind, fetch, readJson, throw, ret.
  destruct (net env (clock w) (Server.tagsUrl owner repo)) as [e|r]; [cbn; auto 10|].
  destruct (ok r); cbn [negb]; [|cbn; auto 10].
  destruct (json r) as [tags|e]; [|cbn; auto 10].
  destruct (firstTagNot1998 tags); cbn; auto 10.
Qed.

Lemma sendZIPFile_eq (env : Env) (asset : string) (w : World) :
  Server.sendZIPFile env asset w =
  if headersSent (res w)
  then (Throw (ErrorObj "Cannot write headers after they are sent to the client"),
        emit (EvWriteHead 200) w)
  else if headersAccepted env asset
  then (Ok tt, with_res (zipHeadersSent asset (res w)) (emit (EvWriteHead 200) w))
  else (Throw (ErrorObj "Invalid character in header content"), emit (EvWriteHead 200) w).
Proof.
  unfold Server.sendZIPFile, writeHead, headersAccepted, disposition.
  cbn [forallb snd]. rewrite andb_true_r. reflexivity.
Qed.

Lemma isExist_eq (p : string) (w : World) :
  Server.isExist p w = (Ok (access_ok p w), emit (EvAccess p) w).
Proof.
  unfold Server.isExist, try_catch, bind, access, ret.
  destruct (access_ok p w); reflexivity.
Qed.

Lemma archive_finalize_teed (env : Env) (path : string) (w : World) :
  archive_finalize env (teed path) w =
  match finalize_fault env (clock w) with
  | Some e => (Throw e, tick (emit EvFinalize w))
  | None => (Ok tt, res_finish (archive_emit (teed path) [EndOfArchive]
                                  (tick (emit EvFinalize w))))
  end.
Proof. reflexivity. Qed.

(** The [else] branch as a chain of its steps. *)
Lemma buildAndRespond_eq (env : Env) (owner repo version : string)
    (fileList : list string) (asset path : string) (w : World) :
  Server.buildAndRespond env owner repo version fileList asset path w =
  match Server.sendZIPFile env asset w with
  | (Throw e, w1) => (Throw e, w1)
  | (Ok _, w1) =>
      let w2 := emit (EvAccess "noname") (emit EvArchiver w1) in
      match (if access_ok "noname" w1 then (Ok tt, w2) else mkdir env "noname" w2) with
      | (Throw e, w3) => (Throw e, w3)
      | (Ok _, w3) =>
          let w4 := with_files (<[path := []]> (files w3))
                      (emit (EvCreateWriteStream path) w3) in
          match promiseAll_limit
                  (Server.downloadInto env (teed path) owner repo version) fileList w4 with
          | (Throw e, w5) => (Throw e, w5)
          | (Ok _, w5) => archive_finalize env (teed path) w5
          end
      end
  end.
Proof.
  unfold Server.buildAndRespond, bind, archiver, createWriteStream, effect, ret.
  destruct (Server.sendZIPFile env asset w) as [[[]|e] w1]; [|reflexivity].
  rewrite isExist_eq.
  change (access_ok "noname" (emit EvArchiver w1)) with (access_ok "noname" w1).
  destruct (access_ok "noname" w1); cbn [negb]; [reflexivity|].
  destruct (mkdir env "noname" _) as [[[]|e] w3]; reflexivity.
Qed.

Lemma mkdir_step (env : Env) (w : World) :
  let step := if access_ok "noname" w then (Ok tt, w) else mkdir env "noname" w in
  files (snd step) = files w /\ pending (snd step) = pending w /\
  res (snd step) = res w /\
  (forall p, p ∈ dirs (snd step) -> p ∈ dirs w \/ p = "noname") /\
  (trace (snd step) = trace w \/ trace (snd step) = (trace w ++ [EvMkdir "noname"])%list).
Proof.
  cbv zeta. destruct (access_ok "noname" w) eqn:A; [cbn; auto 10|].
  unfold mkdir. rewrite A.
  destruct (mkdir_fault env (clock w)); cbn; repeat split; auto.
  intros p Hp. apply elem_of_union in Hp as [Hp|Hp]; [|auto].
  apply elem_of_singleton in Hp. auto.
Qed.

Lemma downloadEvents_noFinalize (tr : list Event) :
  Forall isDownloadEvent tr -> ~ In EvFinalize tr.
Proof.
  intros F H. rewrite Forall_forall in F. apply list_elem_of_In in H.
  exact (F _ H).
Qed.

(** What a build leaves alone, what its trace looks like, and the state
    of the response when it throws. *)
Lemma buildAndRespond_spec (env : Env) (owner repo version : string)
    (fileList : list string) (asset path : string) (w : World) :
  let run := Server.buildAndRespond env owner repo version fileList asset path w in
  pending (snd run) = pending w /\
  (forall p, p ∈ dirs (snd run) -> p ∈ dirs w \/ p = "noname") /\
  (exists tr, trace (snd run) = (trace w ++ tr)%list /\
     (In EvFinalize tr -> appended tr = fileList)) /\
  (forall e, fst run = Throw e ->
     res (snd run) = res w \/
     (headersSent (res w) = false /\ headersSent (res (snd run)) = true /\
      statusCode (res (snd run)) = Some 200 /\
      ended (res (snd run)) = ended (res w) /\
      destroyed (res (snd run)) = destroyed (res w) /\
      exists cs, written (res (snd run)) = (written (res w) ++ cs)%list /\
                 Forall isEntry cs)).
Proof.
  cbv zeta. rewrite buildAndRespond_eq, sendZIPFile_eq.
  destruct (headersSent (res w)) eqn:HS.
  { cbn. repeat split; auto. exists [EvWriteHead 200]. split; [reflexivity|].
    intros [H|[]]. discriminate. }
  destruct (headersAccepted env asset) eqn:HA.
  2:{ cbn. repeat split; auto. exists [EvWriteHead 200]. split; [reflexivity|].
      intros [H|[]]. discriminate. }
  cbv zeta.
  set (w1 := with_res _ _).
  set (w2 := emit (EvAccess "noname") (emit EvArchiver w1)).
  change (access_ok "noname" w1) with (access_ok "noname" w2).
  destruct (mkdir_step env w2) as (F3 & P3 & R3 & D3 & T3).
  destruct (if access_ok "noname" w2 then (Ok tt, w2) else mkdir env "noname" w2)
    as [[[]|e3] w3]; cbn [fst snd] in *.
  2:{ split; [exact P3|]. split; [exact D3|]. split.
      - destruct T3 as [T3|T3]; rewrite T3; subst w2 w1; cbn; rewrite <- ?app_assoc;
          eexists; (split; [reflexivity|]); cbn; intuition discriminate.
      - intros e _. right. rewrite R3. subst w2 w1. cbn. repeat split; auto.
        exists []. now rewrite app_nil_r. }
  set (w4 := with_files _ _).
  destruct (downloads_spec env path owner repo version fileList w4)
    as ((D5 & P5 & H5 & S5 & HH5 & E5 & X5 & cs & W5 & FE) & tr5 & T5 & F5 & R5).
  assert (T4 : exists pre, trace w4 = (trace w ++ pre)%list /\ appended pre = [] /\
                           ~ In EvFinalize pre).
  { destruct T3 as [T3|T3]; subst w4; cbn; rewrite T3; subst w2 w1; cbn;
      rewrite <- ?app_assoc; eexists; (split; [reflexivity|]); cbn;
      (split; [reflexivity|]); intuition discriminate. }
  destruct T4 as (pre & T4 & A4 & N4).
  assert (R4 : res w4 = zipHeadersSent asset (res w)).
  { subst w4. cbn. rewrite R3. reflexivity. }
  destruct (promiseAll_limit _ fileList w4) as [[[]|e5] w5]; cbn [fst snd] in *.
  - rewrite archive_finalize_teed.
    destruct (finalize_fault env (clock w5)) as [e6|]; cbn [fst snd].
    + cbn. split; [rewrite P5; subst w4; cbn; exact P3|].
      split; [intros p Hp; rewrite D5 in Hp; subst w4; cbn in Hp; auto|].
      split.
      * exists (pre ++ tr5 ++ [EvFinalize])%list. split.
        -- rewrite T5, T4. now rewrite <- !app_assoc.
        -- intros _. rewrite !appended_app, A4, R5. cbn. now rewrite app_nil_r.
      * intros e _. right. rewrite H5, S5, E5, X5, W5, R4. cbn.
        repeat split; auto. eauto.
    + split.
      { rewrite archive_emit_teed. unfold res_finish, res_receive. cbn.
        destruct (destroyed (res w5) || ended (res w5)); cbn;
          destruct (destroyed _); cbn; rewrite P5; subst w4; cbn; exact P3. }
      split.
      { intros p Hp. apply D3.
        rewrite archive_emit_teed in Hp. unfold res_finish, res_receive in Hp. cbn in Hp.
        destruct (destroyed (res w5) || ended (res w5)); cbn in Hp;
          destruct (destroyed _); cbn in Hp; rewrite D5 in Hp; subst w4; cbn in Hp; exact Hp. }
      split; [|intros e; discriminate].
      exists (pre ++ tr5 ++ [EvFinalize])%list. split.
      * rewrite archive_emit_teed. unfold res_finish, res_receive. cbn.
        destruct (destroyed (res w5) || ended (res w5)); cbn;
          destruct (destroyed _); cbn; rewrite T5, T4; now rewrite <- !app_assoc.
      * intros _. rewrite !appended_app, A4, R5. cbn. now rewrite app_nil_r.
  - destruct R5 as (-> & pre5 & f & post & -> & A5).
    split; [rewrite P5; subst w4; cbn; exact P3|].
    split; [intros p Hp; rewrite D5 in Hp; subst w4; cbn in Hp; auto|].
    split.
    + exists (pre ++ tr5)%list. split; [rewrite T5, T4; now rewrite <- app_assoc|].
      intros H. exfalso. apply in_app_or in H as [H|H]; [auto|].
      now apply downloadEvents_noFinalize in F5.
    + intros e _. right. rewrite H5, S5, E5, X5, W5, R4. cbn.
      repeat split; auto. eauto.
Qed.

Lemma respondFromCache_eq (env : Env) (asset path : string) (w : World) :
  Server.respondFromCache env asset path w =
  match Server.sendZIPFile env asset w with
  | (Throw e, w1) => (Throw e, w1)
  | (Ok _, w1) => pipeFileToResponse path w1
  end.
Proof.
  unfold Server.respondFromCache, bind.
  destruct (Server.sendZIPFile env asset w) as [[[]|e] w1]; reflexivity.
Qed.

(** The [if] branch throws only from [sendZIPFile], before anything is
    sent, and then it has touched nothing but the trace. *)
Lemma respondFromCache_spec (env : Env) (asset path : string) (w : World) :
  let run := Server.respondFromCache env asset path w in
  pending (snd run) = pending w /\ dirs (snd run) = dirs w /\
  files (snd run) = files w /\
  (exists tr, trace (snd run) = (trace w ++ tr)%list /\ ~ In EvFinalize tr /\
              appended tr = [] /\ fetched tr = []) /\
  (forall e, fst run = Throw e -> res (snd run) = res w).
Proof.
  cbv zeta. rewrite respondFromCache_eq, sendZIPFile_eq.
  destruct (headersSent (res w)).
  { cbn. repeat split; auto. exists [EvWriteHead 200]. cbn. intuition discriminate. }
  destruct (headersAccepted env asset).
  2:{ cbn. repeat split; auto. exists [EvWriteHead 200]. cbn. intuition discriminate. }
  unfold pipeFileToResponse, effect. cbn [files with_res emit].
  destruct (files w !! path) as [cs|]; cbn [fst snd].
  - unfold res_finish, res_receive. cbn.
    destruct (destroyed (res w) || ended (res w)); cbn; destruct (destroyed (res w)); cbn;
      (repeat split; auto; [|discriminate]);
      exists [EvWriteHead 200; EvCreateReadStream path];
      rewrite <- app_assoc; cbn; intuition discriminate.
  - cbn. repeat split; auto; [|discriminate].
    exists [EvWriteHead 200; EvCreateReadStream path].
    rewrite <- app_assoc; cbn; intuition discriminate.
Qed.


(** The [try] block as a whole. *)
Lemma tryBlock_spec (env : Env) (version : option string) (owner repo : string)
    (fileList : list string) (w : World) :
  let run := Server.tryBlock env version owner repo fileList w in
  let w1 := snd (snd run) in
  pending w1 = pending w /\
  (forall p, p ∈ dirs w1 -> p ∈ dirs w \/ p = "noname") /\
  (exists tr, trace w1 = (trace w ++ tr)%list /\
     (In EvFinalize tr -> appended tr = fileList)) /\
  (forall e, fst (snd run) = Throw e ->
     res w1 = res w \/
     (headersSent (res w) = false /\ headersSent (res w1) = true /\
      statusCode (res w1) = Some 200 /\
      ended (res w1) = ended (res w) /\ destroyed (res w1) = destroyed (res w) /\
      exists cs, written (res w1) = (written (res w) ++ cs)%list /\ Forall isEntry cs)).
Proof.
  cbv zeta. unfold Server.tryBlock.
  destruct (resolveVersion_frame env version owner repo w) as (F0 & D0 & P0 & R0 & T0).
  destruct (Server.resolveVersion env version owner repo w) as [[v|e0] w0];
    cbn [fst snd] in *.
  2:{ repeat split; auto.
      - intros p. rewrite D0. auto.
      - destruct T0 as [T0|T0]; rewrite T0.
        + exists []. rewrite app_nil_r. cbn. intuition.
        + eexists. split; [reflexivity|]. cbn. intuition discriminate. }
  set (asset := Server.assetName owner repo v (generateHashFromArray fileList)).
  set (path := Server.joinPath "noname" asset).
  unfold bind. rewrite isExist_eq.
  assert (T1 : exists pre, trace (emit (EvAccess path) w0) = (trace w ++ pre)%list /\
                           appended pre = [] /\ ~ In EvFinalize pre).
  { destruct T0 as [T0|T0]; cbn; rewrite T0; rewrite <- ?app_assoc;
      eexists; (split; [reflexivity|]); cbn; intuition discriminate. }
  destruct T1 as (pre & T1 & A1 & N1).
  destruct (access_ok path w0).
  - destruct (respondFromCache_spec env asset path (emit (EvAccess path) w0))
      as (P & D & F & (tr & T & NF & A & _) & R).
    destruct (Server.respondFromCache env asset path (emit (EvAccess path) w0))
      as [r w1]; cbn [fst snd] in *. cbn in P, D, F.
    split; [rewrite P; exact P0|].
    split; [intros p; rewrite D, D0; auto|].
    split.
    + exists (pre ++ tr)%list. split; [rewrite T, T1; now rewrite app_assoc|].
      intros H. apply in_app_or in H as [H|H]; contradiction.
    + intros e E. left. rewrite (R e E). exact R0.
  - destruct (buildAndRespond_spec env owner repo v fileList asset path
                (emit (EvAccess path) w0)) as (P & D & (tr & T & A) & R).
    destruct (Server.buildAndRespond env owner repo v fileList asset path
                (emit (EvAccess path) w0)) as [r w1]; cbn [fst snd] in *.
    cbn in P, D, R.
    split; [rewrite P; exact P0|].
    split; [intros p Hp; apply D in Hp; rewrite D0 in Hp; auto|].
    split.
    + exists (pre ++ tr)%list. split; [rewrite T, T1; now rewrite app_assoc|].
      intros H. apply in_app_or in H as [H|H]; [contradiction|].
      rewrite appended_app, A1, (A H). reflexivity.
    + intros e E. rewrite <- R0. exact (R e E).
Qed.

(** The frame the [catch] block finds. *)
Lemma tryBlock_frame (env : Env) (version : option string) (owner repo : string)
    (fileList : list string) (w : World) :
  match Server.resolveVersion env version owner repo w with
  | (Ok v, w0) =>
      fst (Server.tryBlock env version owner repo fileList w) =
      {| Server.asset := Server.assetName owner repo v (generateHashFromArray fileList);
         Server.path := Server.joinPath "noname"
                          (Server.assetName owner repo v (generateHashFromArray fileList)) |}
  | (Throw e, w0) =>
      Server.tryBlock env version owner repo fileList w =
      ({| Server.asset := ""; Server.path := "" |}, (Throw e, w0))
  end.
Proof.
  unfold Server.tryBlock.
  destruct (Server.resolveVersion env version owner repo w) as [[v|e] w0]; reflexivity.
Qed.

(** The [catch] block. *)
Lemma catchBlock_spec (env : Env) (frame : Server.Frame) (e : Thrown) (w : World) :
  let run := Server.catchBlock env frame e w in
  let answer := if headersSent (res w) then [EvDestroy] else [EvWriteHead 500; EvEnd] in
  let cleanup := if String.eqb (Server.asset frame) "" then []
                 else [Server.path frame] in
  fst run = Ok tt /\
  files (snd run) = files w /\ dirs (snd run) = dirs w /\
  pending (snd run) = (pending w ++ cleanup)%list /\
  trace (snd run) = (trace w ++ EvConsoleError e :: answer ++ map EvUnlink cleanup)%list /\
  written (res (snd run)) = written (res w) /\
  (headersSent (res w) = true ->
     destroyed (res (snd run)) = true /\ ended (res (snd run)) = ended (res w)) /\
  (headersSent (res w) = false -> destroyed (res w) = false ->
     statusCode (res (snd run)) = Some 500 /\ ended (res (snd run)) = true /\
     destroyed (res (snd run)) = false).
Proof.
  cbv zeta. unfold Server.catchBlock, bind, console_error, effect, res_destroy,
    writeHead, res_end, unlink_detached, ret, res_finish.
  cbn.
  destruct (headersSent (res w)) eqn:HS; cbn; rewrite ?HS; cbn;
    destruct (String.eqb (Server.asset frame) ""); cbn;
    destruct (destroyed (res w)) eqn:X; cbn; rewrite ?HS, ?X; cbn;
    rewrite <- ?app_assoc; cbn; rewrite ?app_nil_r;
    repeat split; auto; try discriminate; try congruence.
Qed.

(** *** The listener as a whole *)

Lemma serve_eq (env : Env) (noname : Noname) (w : World) :
  action noname = "downloadAssets" ->
  serve env noname w =
  match tryOf env noname w with
  | (_, (Ok _, w')) => (Ok tt, w')
  | (frame, (Throw error, w')) => Server.catchBlock env frame error w'
  end.
Proof.
  intros A. unfold serve, Server.nonameRequestListener, tryOf, ownerOf, repoOf.
  rewrite A. reflexivity.
Qed.

Lemma tryOf_branch (env : Env) (noname : Noname) (w : World) (v : string) (w0 : World) :
  Server.resolveVersion env (version noname) (ownerOf noname) (repoOf noname) w = (Ok v, w0) ->
  let asset := Server.assetName (ownerOf noname) (repoOf noname) v (keyOf noname) in
  let path := Server.joinPath "noname" asset in
  tryOf env noname w =
  ({| Server.asset := asset; Server.path := path |},
   if access_ok path w
   then Server.respondFromCache env asset path (emit (EvAccess path) w0)
   else Server.buildAndRespond env (ownerOf noname) (repoOf noname) v (fileList noname)
          asset path (emit (EvAccess path) w0)).
Proof.
  intros R. cbv zeta. unfold tryOf, Server.tryBlock.
  pose proof (resolveVersion_frame env (version noname) (ownerOf noname) (repoOf noname) w)
    as (F & D & _). rewrite R in *. cbn [snd] in F, D.
  unfold bind. rewrite isExist_eq.
  assert (E : forall p, access_ok p w0 = access_ok p w)
    by (intros p; unfold access_ok; now rewrite F, D).
  rewrite E. unfold keyOf. destruct (access_ok _ w); reflexivity.
Qed.

Lemma settle_removes (w : World) (p : string) :
  In p (pending w) -> files (settle w) !! p = None.
Proof.
  unfold settle. cbn. generalize (files w) as f.
  induction (pending w) as [|q qs IH]; intros f H; [contradiction|].
  cbn [foldr]. destruct (decide (q = p)) as [->|NE].
  - apply lookup_delete_eq.
  - rewrite lookup_delete_ne by exact NE. apply IH. destruct H; [contradiction|assumption].
Qed.


(** A failing request, from a fresh response object. *)
Lemma serve_failure (env : Env) (noname : Noname) (w : World) (e : Thrown) :
  action noname = "downloadAssets" ->
  res w = freshResponse ->
  fst (snd (tryOf env noname w)) = Throw e ->
  let w1 := snd (snd (tryOf env noname w)) in
  let w' := snd (serve env noname w) in
  fst (serve env noname w) = Ok tt /\
  In (EvConsoleError e) (trace w') /\
  ~ In EndOfArchive (written (res w')) /\
  ((headersSent (res w1) = false /\ statusCode (res w') = Some 500 /\
    written (res w') = [] /\ ended (res w') = true /\ destroyed (res w') = false) \/
   (headersSent (res w1) = true /\ destroyed (res w') = true /\ ended (res w') = false)).
Proof.
  intros A Fresh T. cbv zeta. rewrite (serve_eq env noname w A).
  pose proof (tryBlock_spec env (version noname) (ownerOf noname) (repoOf noname)
                (fileList noname) w) as (_ & _ & _ & R).
  fold (tryOf env noname w) in R.
  destruct (tryOf env noname w) as [frame [r w1]]; cbn [fst snd] in *. subst r.
  specialize (R e eq_refl).
  destruct (catchBlock_spec env frame e w1) as (O & _ & _ & _ & Tr & W & Sent & Unsent).
  split; [exact O|]. split.
  { rewrite Tr. apply in_or_app. right. now left. }
  rewrite W. destruct R as [R|(_ & HS & _ & E & X & cs & Wr & FE)].
  - rewrite R, Fresh in *. cbn in *. split; [tauto|]. left.
    destruct (Unsent eq_refl eq_refl) as (S5 & E5 & X5). auto.
  - rewrite Fresh in *. cbn in *. split.
    + rewrite Wr. intros H. rewrite Forall_forall in FE.
      apply list_elem_of_In in H. exact (FE _ H).
    + right. destruct (Sent HS) as (X5 & E5). rewrite E5, E. auto.
Qed.

(** ** Fetching with retries, all or nothing *)


Lemma openArchive_teed (env : Env) (asset path : string) (w : World) (a : Archive)
    (w4 : World) :
  openArchive env asset path w = (Ok a, w4) -> a = teed path.
Proof.
  unfold openArchive, bind, archiver, createWriteStream, effect, ret.
  destruct (Server.sendZIPFile env asset w) as [[[]|e] w1]; [|discriminate].
  rewrite isExist_eq.
  destruct (access_ok "noname" (emit EvArchiver w1)); cbn [negb].
  - intros [= <- _]. reflexivity.
  - destruct (mkdir env "noname" _) as [[[]|e] w3]; [|discriminate].
    intros [= <- _]. reflexivity.
Qed.







(** ** Cleanup after a failure *)




(** C9.  Whenever the [try] block throws after [asset] was assigned,
    whichever branch was taken, the listener ends by calling [unlink]
    on the cache path and returns without waiting for it: the path is
    among the outstanding removals and the files are as the [try]
    block left them.  In particular an entry that was stored before the
    request is still there when the listener returns, and gone once the
    outstanding removal has run. *)
Theorem catch_unlinks_without_waiting (env : Env) (noname : Noname) (w : World)
    (e : Thrown) :
  action noname = "downloadAssets" ->
  let frame := fst (tryOf env noname w) in
  let w1 := snd (snd (tryOf env noname w)) in
  let w' := snd (serve env noname w) in
  fst (snd (tryOf env noname w)) = Throw e ->
  Server.asset frame <> "" ->
  Server.path frame = Server.joinPath "noname" (Server.asset frame) /\
  fst (serve env noname w) = Ok tt /\
  (exists before, trace w' = (trace w1 ++ before ++ [EvUnlink (Server.path frame)])%list) /\
  pending w' = (pending w ++ [Server.path frame])%list /\
  files w' = files w1 /\
  (forall stored, files w !! Server.path frame = Some stored ->
     files w' !! Server.path frame = Some stored) /\
  files (settle w') !! Server.path frame = None.
Proof.
  intros A. cbv zeta. intros T NE.
  rewrite (serve_eq env noname w A).
  pose proof (tryBlock_frame env (version noname) (ownerOf noname) (repoOf noname)
                (fileList noname) w) as Fr.
  pose proof (tryBlock_spec env (version noname) (ownerOf noname) (repoOf noname)
                (fileList noname) w) as (P & _).
  destruct (Server.resolveVersion env (version noname) (ownerOf noname) (repoOf noname) w)
    as [[v|e0] w0] eqn:R.
  2:{ fold (tryOf env noname w) in Fr. rewrite Fr in NE. now cbn in NE. }
  pose proof (tryOf_branch env noname w v w0 R) as Br. cbv zeta in Br.
  fold (tryOf env noname w) in Fr, P.
  destruct (tryOf env noname w) as [frame [r w1]] eqn:TO; cbn [fst snd] in *.
  subst r frame. cbn [Server.asset Server.path] in *.
  set (asset := Server.assetName _ _ _ _) in *.
  set (path := Server.joinPath "noname" asset) in *.
  destruct (catchBlock_spec env {| Server.asset := asset; Server.path := path |} e w1)
    as (O & F & D & Pe & Tr & _).
  cbn [Server.asset Server.path] in *.
  assert (NEb : String.eqb asset "" = false) by (now apply String.eqb_neq).
  rewrite NEb in *. cbn [map] in *.
  assert (Hpend : In path (pending (snd (Server.catchBlock env
             {| Server.asset := asset; Server.path := path |} e w1)))).
  { rewrite Pe. apply in_or_app. right. now left. }
  split; [reflexivity|]. split; [exact O|]. split.
  { rewrite Tr.
    exists (EvConsoleError e :: (if headersSent (res w1) then [EvDestroy]
                                 else [EvWriteHead 500; EvEnd])).
    reflexivity. }
  split; [rewrite Pe, P; reflexivity|]. split; [exact F|]. split.
  - intros stored St. rewrite F.
    injection Br as Br. 
    assert (Acc : access_ok path w = true).
    { unfold access_ok. rewrite St. reflexivity. }
    rewrite Acc in Br.
    pose proof (respondFromCache_spec env asset path (emit (EvAccess path) w0))
      as (_ & _ & Fi & _).
    rewrite <- Br in Fi. cbn [snd] in Fi. rewrite Fi. cbn.
    pose proof (resolveVersion_frame env (version noname) (ownerOf noname) (repoOf noname) w)
      as (F0 & _). rewrite R in F0. cbn [snd] in F0. now rewrite F0.
  - now apply settle_removes.
Qed.

Lemma catch_unlinks_without_waiting_witness :
  let w' := snd (serve Sample.online Sample.oddRequest Sample.stocked) in
  fst (snd (tryOf Sample.online Sample.oddRequest Sample.stocked))
    = Throw (ErrorObj "Invalid character in header content") /\
  pending w' = [Sample.oddPath] /\
  files w' !! Sample.oddPath = Some [EntryChunk "a.txt" "stored bytes"; EndOfArchive] /\
  files (settle w') !! Sample.oddPath = None.
Proof.
  assert (T : fst (snd (tryOf Sample.online Sample.oddRequest Sample.stocked))
              = Throw (ErrorObj "Invalid character in header content"))
    by (vm_compute; reflexivity).
  assert (NE : Server.asset (fst (tryOf Sample.online Sample.oddRequest Sample.stocked)) <> "")
    by (vm_compute; discriminate).
  destruct (catch_unlinks_without_waiting Sample.online Sample.oddRequest Sample.stocked
              (ErrorObj "Invalid character in header content") eq_refl T NE)
    as (Pa & _ & _ & Pe & _ & St & Se).
  assert (Pa' : Server.path (fst (tryOf Sample.online Sample.oddRequest Sample.stocked))
                = Sample.oddPath) by (vm_compute; reflexivity).
  rewrite Pa' in *.
  cbv zeta. split; [exact T|]. split; [exact Pe|]. split; [|exact Se].
  apply St. vm_compute. reflexivity.
Defined.

(** ** What a failing request is answered *)

(** C7 (as the code has it).  The HTTP server answers a failure that
    comes before the headers were sent with status 500 and an empty
    body, and destroys the response, never ending it nor writing the
    end of an archive, when the headers were already sent.  The
    fetch-API handler [getNoname] answers a failure with status 500 and
    the message of the error as its body, or no body when the thrown
    value is not an [Error]. *)
Theorem failure_answers (env : Env) (noname : Noname) (w : World) (e : Thrown) :
  action noname = "downloadAssets" ->
  (res w = freshResponse ->
   fst (snd (tryOf env noname w)) = Throw e ->
   let w1 := snd (snd (tryOf env noname w)) in
   let w' := snd (serve env noname w) in
   (headersSent (res w1) = false ->
      statusCode (res w') = Some 500 /\ written (res w') = [] /\
      ended (res w') = true /\ destroyed (res w') = false) /\
   (headersSent (res w1) = true ->
      destroyed (res w') = true /\ ended (res w') = false /\
      ~ In EndOfArchive (written (res w')))) /\
  (fst (Worker.tryBlock env (version noname) (ownerOf noname) (repoOf noname)
          (fileList noname) w) = Throw e ->
   fst (Worker.getNoname env noname w) =
   Ok {| Worker.respStatus := 500; Worker.respHeaders := [];
         Worker.respBody := option_map Worker.TextBody (Worker.messageOf e) |}).
Proof.
  intros A. split.
  - intros Fresh T. cbv zeta.
    destruct (serve_failure env noname w e A Fresh T)
      as (_ & _ & NoEnd & [(HS & S & Wr & E & X)|(HS & X & E)]).
    + split; [auto|]. intros HS'. congruence.
    + split; [intros HS'; congruence|]. auto.
  - intros T. unfold Worker.getNoname. rewrite A, String.eqb_refl. cbn [negb].
    unfold try_catch. fold (ownerOf noname). fold (repoOf noname).
    destruct (Worker.tryBlock env (version noname) (ownerOf noname) (repoOf noname)
                (fileList noname) w) as [[r|e'] w1]; cbn [fst] in T; [discriminate|].
    injection T as ->. reflexivity.
Qed.

Lemma failure_answers_witness :
  let w' := snd (serve Sample.filesMissing Sample.plainRequest Sample.emptyDisk) in
  let r := fst (Worker.getNoname Sample.filesMissing Sample.plainRequest Sample.emptyDisk) in
  (destroyed (res w') = true /\ ended (res w') = false /\
   ~ In EndOfArchive (written (res w'))) /\
  exists message, r = Ok {| Worker.respStatus := 500; Worker.respHeaders := [];
                            Worker.respBody := Some (Worker.TextBody message) |}.
Proof.
  destruct (failure_answers Sample.filesMissing Sample.plainRequest Sample.emptyDisk
              exhausted eq_refl) as (S & _).
  destruct (S eq_refl ltac:(vm_compute; reflexivity)) as (_ & Sent).
  cbv zeta. split; [apply Sent; vm_compute; reflexivity|].
  eexists.
  refine (proj2 (failure_answers Sample.filesMissing Sample.plainRequest Sample.emptyDisk
                   (ErrorObj _) eq_refl) _).
  vm_compute. reflexivity.
Defined.

(** C7, refuted as stated: the tag query fails before any header is
    sent, the error has a message, and the server answers 500 with no
    body at all. *)
Lemma server_fault_carries_no_message :
  let noname := Sample.request None ["a.txt"] in
  let w1 := snd (snd (tryOf Sample.allMissing noname Sample.emptyDisk)) in
  let w' := snd (serve Sample.allMissing noname Sample.emptyDisk) in
  fst (snd (tryOf Sample.allMissing noname Sample.emptyDisk))
    = Throw (ErrorObj "Failed to fetch tags from GitHub repository") /\
  headersSent (res w1) = false /\
  statusCode (res w') = Some 500 /\ headers (res w') = [] /\
  written (res w') = [] /\ ended (res w') = true.
Proof. vm_compute. repeat split. Qed.

(** ** Cache hits *)

Lemma completed_build_accepted (env : Env) (owner repo version : string)
    (fileList : list string) (asset path : string) (w : World) :
  fst (Server.buildAndRespond env owner repo version fileList asset path w) = Ok tt ->
  headersAccepted env asset = true.
Proof.
  rewrite buildAndRespond_eq, sendZIPFile_eq.
  destruct (headersSent (res w)); [discriminate|].
  destruct (headersAccepted env asset); [reflexivity|discriminate].
Qed.

(** A request for a stored artifact, run from a fresh response object. *)
Lemma cache_hit_run (env : Env) (noname : Noname) (w : World) (v : string) (w0 : World)
    (stored : list Chunk) :
  action noname = "downloadAssets" ->
  res w = freshResponse ->
  Server.resolveVersion env (version noname) (ownerOf noname) (repoOf noname) w = (Ok v, w0) ->
  let asset := Server.assetName (ownerOf noname) (repoOf noname) v (keyOf noname) in
  let path := Server.joinPath "noname" asset in
  files w !! path = Some stored ->
  headersAccepted env asset = true ->
  serve env noname w =
  (Ok tt,
   {| files := files w; dirs := dirs w; pending := pending w; clock := clock w0;
      trace := (trace w0 ++ [EvAccess path; EvWriteHead 200; EvCreateReadStream path])%list;
      res := {| headersSent := true; statusCode := Some 200;
                headers := [("Content-Type", "application/zip");
                            ("Content-Disposition", disposition asset)];
                written := stored; ended := true; destroyed := false |} |}).
Proof.
  intros A Fresh R. cbv zeta. intros St HA.
  rewrite (serve_eq env noname w A), (tryOf_branch env noname w v w0 R).
  pose proof (resolveVersion_frame env (version noname) (ownerOf noname) (repoOf noname) w)
    as (F0 & D0 & P0 & R0 & _). rewrite R in *. cbn [snd] in *.
  assert (Acc : access_ok
                  (Server.joinPath "noname"
                     (Server.assetName (ownerOf noname) (repoOf noname) v (keyOf noname))) w
                = true).
  { unfold access_ok. rewrite St. reflexivity. }
  rewrite Acc, respondFromCache_eq, sendZIPFile_eq.
  cbn [res emit]. rewrite R0, Fresh. cbn [headersSent freshResponse]. rewrite HA.
  unfold pipeFileToResponse, effect. cbn [files with_res emit]. rewrite F0, St.
  unfold res_finish, res_receive. cbn. unfold with_res, emit. cbn. rewrite <- ?app_assoc. cbn.
  rewrite F0, D0, P0. reflexivity.
Qed.

(** C4.  For a request that names a bundle which a build completed
    (so its headers were accepted) and which is stored at its cache
    path, served from a fresh response object: the listener answers 200
    with the artifact headers, pipes the stored pieces to the response
    and ends it.  After the version is resolved (at most the one query
    of the tag list) its only platform calls are the existence check,
    [writeHead] and [createReadStream]: no file is fetched, no archive
    is made, appended to or finalized.  Files and outstanding removals
    are untouched, and a repeated request receives the same pieces. *)
Theorem cache_hit_streams_stored (env : Env) (noname : Noname) (wb w : World)
    (v : string) (w0 : World) (stored : list Chunk) :
  action noname = "downloadAssets" ->
  let asset := Server.assetName (ownerOf noname) (repoOf noname) v (keyOf noname) in
  let path := Server.joinPath "noname" asset in
  fst (Server.buildAndRespond env (ownerOf noname) (repoOf noname) v (fileList noname)
         asset path wb) = Ok tt ->
  files w !! path = Some stored ->
  res w = freshResponse ->
  Server.resolveVersion env (version noname) (ownerOf noname) (repoOf noname) w = (Ok v, w0) ->
  let w' := snd (serve env noname w) in
  fst (serve env noname w) = Ok tt /\
  statusCode (res w') = Some 200 /\
  headers (res w') = [("Content-Type", "application/zip");
                      ("Content-Disposition", disposition asset)] /\
  written (res w') = stored /\ ended (res w') = true /\ destroyed (res w') = false /\
  trace w' = (trace w0 ++ [EvAccess path; EvWriteHead 200; EvCreateReadStream path])%list /\
  (trace w0 = trace w \/
   trace w0 = (trace w ++ [EvFetch (Server.tagsUrl (ownerOf noname) (repoOf noname))])%list) /\
  files w' = files w /\ pending w' = pending w /\
  (forall w0',
     Server.resolveVersion env (version noname) (ownerOf noname) (repoOf noname)
       (with_res freshResponse w') = (Ok v, w0') ->
     written (res (snd (serve env noname (with_res freshResponse w')))) = written (res w')).
Proof.
  intros A. cbv zeta. intros Built St Fresh R.
  pose proof (completed_build_accepted _ _ _ _ _ _ _ _ Built) as HA.
  pose proof (cache_hit_run env noname w v w0 stored A Fresh R St HA) as Run.
  cbv zeta in Run. rewrite Run. cbn [fst snd res statusCode headers written ended destroyed
                                      trace files pending with_res].
  repeat split.
  - pose proof (resolveVersion_frame env (version noname) (ownerOf noname) (repoOf noname) w)
      as (_ & _ & _ & _ & T0). now rewrite R in T0.
  - intros w0' R'.
    match type of R' with
    | Server.resolveVersion _ _ _ _ ?w2 = _ =>
        rewrite (cache_hit_run env noname w2 v w0' stored A eq_refl R' St HA)
    end.
    reflexivity.
Qed.

Lemma cache_hit_streams_stored_witness :
  let built := snd (serve Sample.online Sample.plainRequest Sample.emptyDisk) in
  let w' := snd (serve Sample.online Sample.plainRequest (with_res freshResponse built)) in
  files built !! Sample.plainPath = Some (written (res w')) /\
  fetched (trace w') = fetched (trace built) /\
  appended (trace w') = appended (trace built) /\
  written (res (snd (serve Sample.online Sample.plainRequest (with_res freshResponse w'))))
    = written (res w').
Proof.
  pose (built := snd (serve Sample.online Sample.plainRequest Sample.emptyDisk)).
  pose (stored := [EntryChunk "a.txt"
                     ("content of " ++ Server.rawUrl "o" "r" "v1" "a.txt"); EndOfArchive]).
  destruct (cache_hit_streams_stored Sample.online Sample.plainRequest Sample.emptyDisk
              (with_res freshResponse built) "v1" (with_res freshResponse built) stored
              eq_refl)
    as (_ & _ & _ & Wr & _ & _ & Tr & _ & _ & _ & Again).
  - vm_compute. reflexivity.
  - vm_compute. reflexivity.
  - reflexivity.
  - reflexivity.
  - cbv zeta. fold built. rewrite Wr, Tr. split; [vm_compute; reflexivity|].
    split; [|split].
    + unfold fetched. rewrite omap_app. cbn. now rewrite app_nil_r.
    + rewrite appended_app. cbn. now rewrite app_nil_r.
    + rewrite <- Wr. eapply Again. reflexivity.
Defined.

(** ** The empty file list *)



(** ** The limiter *)

Lemma fetchBody_loop_S (env : Env) (u : string) (n : nat) (w : World) :
  Server.fetchBody_loop env u (S n) w =
  match attemptBody (net env (clock w) u) with
  | Some content => (Ok (Some content), fetches u 1 w)
  | None => Server.fetchBody_loop env u n (fetches u 1 w)
  end.
Proof.
  cbn [Server.fetchBody_loop]. unfold bind. rewrite fetchBody_attempt_eq.
  destruct (attemptBody (net env (clock w) u)); reflexivity.
Qed.

(** One turn of the loop of [fetchBody] and one settled fetch of a
    running task are the same step. *)
Lemma settleTask_fetchBody_loop (env : Env) (u : string) (n : nat) (w : World) :
  match Scheduler.settleTask {| Scheduler.input := u; Scheduler.turnsLeft := n |}
          (net env (clock w) u) with
  | Scheduler.Returned content =>
      Server.fetchBody_loop env u (S n) w = (Ok (Some content), fetches u 1 w)
  | Scheduler.Threw =>
      n = 0%nat /\ Server.fetchBody_loop env u (S n) w = (Ok None, fetches u 1 w)
  | Scheduler.Retrying t =>
      Scheduler.input t = u /\ n = S (Scheduler.turnsLeft t) /\
      Server.fetchBody_loop env u (S n) w =
      Server.fetchBody_loop env u (S (Scheduler.turnsLeft t)) (fetches u 1 w)
  end.
Proof.
  pose proof (fetchBody_loop_S env u n w) as E.
  unfold Scheduler.settleTask, attemptBody in *.
  destruct (net env (clock w) u) as [e|r]; cbn [Scheduler.turnsLeft Scheduler.input].
  - destruct n; cbn [Scheduler.turnsLeft Scheduler.input]; auto.
  - destruct (ok r); [destruct (body r)|]; auto;
      destruct n; cbn [Scheduler.turnsLeft Scheduler.input]; auto.
Qed.

Lemma counted_idle : counted Scheduler.idle.
Proof. unfold counted, Server.limit_concurrency. cbn. lia. Qed.

Lemma counted_step (ev : Scheduler.SchedEvent) (s s' : Scheduler.Sched) :
  counted s -> Scheduler.step ev s = Some s' -> counted s'.
Proof.
  unfold counted. intros [C B] St. destruct ev as [inputs| |i o|];
    unfold Scheduler.step in St.
  - injection St as <-. cbn. auto.
  - destruct (Nat.ltb_spec (Scheduler.activeCount s) Server.limit_concurrency) as [Lt|];
      [|discriminate].
    destruct (Scheduler.queue s) as [|u q]; [discriminate|].
    injection St as <-. cbn. rewrite length_app. cbn. lia.
  - destruct (Scheduler.awaiting s !! i) as [t|] eqn:L; [|discriminate].
    pose proof (lookup_lt_Some _ _ _ L) as Hi.
    destruct (Scheduler.settleTask t o); injection St as <-; cbn.
    + rewrite length_delete by eauto. lia.
    + rewrite length_insert. lia.
    + rewrite length_delete by eauto. lia.
  - destruct (Scheduler.ended s) as [|e] eqn:E; [discriminate|].
    cbv zeta in St.
    destruct (Scheduler.queue s) as [|u q]; injection St as <-; cbn.
    + lia.
    + rewrite length_app. cbn. lia.
Qed.

Lemma counted_run (evs : list Scheduler.SchedEvent) (s s' : Scheduler.Sched) :
  counted s -> Scheduler.run evs s = Some s' -> counted s'.
Proof.
  revert s. induction evs as [|ev evs IH]; intros s C R; cbn in R.
  - now injection R as <-.
  - destruct (Scheduler.step ev s) as [s1|] eqn:St; [|discriminate].
    eapply IH; [eapply counted_step; eauto | exact R].
Qed.

(** C8.  Whatever is submitted to the limiter (any number of file
    lists of any length, the lists of all requests going to the one
    limiter of the module) and however the fetches settle and the
    limiter's checks interleave, the tasks that wait for a fetch, one
    fetch each, are never more than the ceiling of the limiter, which
    is 16; a fetch is outstanding from the call of [fetch] until its
    promise settles. *)
Theorem limiter_bounds_outstanding (evs : list Scheduler.SchedEvent)
    (s : Scheduler.Sched) :
  Scheduler.run evs Scheduler.idle = Some s ->
  (Scheduler.outstanding s <= Server.limit_concurrency)%nat /\
  Server.limit_concurrency = 16%nat /\
  Scheduler.activeCount s = (Scheduler.outstanding s + Scheduler.ended s)%nat.
Proof.
  intros R. destruct (counted_run evs Scheduler.idle s counted_idle R) as [C B].
  unfold Scheduler.outstanding. repeat split; [lia | exact C].
Qed.

Lemma limiter_bounds_outstanding_witness :
  let evs := Scheduler.Submit Sample.twentyInputs :: repeat Scheduler.Admit 16 in
  exists s, Scheduler.run evs Scheduler.idle = Some s /\
    Scheduler.outstanding s = 16%nat /\ length (Scheduler.queue s) = 4%nat /\
    Scheduler.step Scheduler.Admit s = None /\
    (Scheduler.outstanding s <= 16)%nat.
Proof.
  cbv zeta.
  destruct (Scheduler.run (Scheduler.Submit Sample.twentyInputs :: repeat Scheduler.Admit 16)
              Scheduler.idle) as [s|] eqn:R; [|vm_compute in R; discriminate].
  exists s. split; [reflexivity|].
  destruct (limiter_bounds_outstanding _ s R) as (B & N & _).
  assert (E : Some s = Scheduler.run (Scheduler.Submit Sample.twentyInputs
                                        :: repeat Scheduler.Admit 16) Scheduler.idle)
    by (symmetry; exact R).
  vm_compute in E. injection E as ->.
  split; [reflexivity|]. split; [reflexivity|]. split; [reflexivity|].
  rewrite N in B. exact B.
Defined.

(** * Further properties of the code *)

(** ** The port of the server *)


Lemma port_total_app (l : list N) (a : N) :
  fold_left (fun total code => (total + code)%N) l a =
  (a + fold_left (fun total code => (total + code)%N) l 0)%N.
Proof.
  revert a. induction l as [|c l IH]; intros a; cbn [fold_left].
  - lia.
  - rewrite (IH (a + c)%N), (IH (0 + c)%N). lia.
Qed.

Lemma port_total_perm (l1 l2 : list N) :
  Permutation l1 l2 ->
  fold_left (fun total code => (total + code)%N) l1 0%N =
  fold_left (fun total code => (total + code)%N) l2 0%N.
Proof.
  induction 1 as [|c l1 l2 _ IH|c d l|l1 l2 l3 _ IH1 _ IH2]; cbn [fold_left].
  - reflexivity.
  - rewrite (port_total_app l1), (port_total_app l2), IH. reflexivity.
  - rewrite (port_total_app l (0 + d + c)), (port_total_app l (0 + c + d)). lia.
  - congruence.
Qed.

(** X1.  Whatever the string, [stringToUnreservedPortNumber] gives a
    port from 1024 up to 65534: never a reserved port, and never 65535
    itself, since the sum of the code units is reduced modulo
    [maxPort - basePort].  The empty string gives 1024, and the port of
    the name the module computes it for is 1662, the default port of
    [createNonameServer]. *)
Theorem port_in_unreserved_range (str : list N) :
  (1024 <= Port.stringToUnreservedPortNumber str < 65535)%N /\
  Port.stringToUnreservedPortNumber [] = 1024%N /\
  Port.portNumber = Port.createNonameServer_defaultPort.
Proof.
  split; [|split; reflexivity].
  unfold Port.stringToUnreservedPortNumber, Port.basePort, Port.maxPort. cbv zeta.
  change (65535 - 1024)%N with 64511%N.
  pose proof (N.mod_upper_bound
                (fold_left (fun total code => (total + code)%N) str 0%N) 64511%N
                ltac:(discriminate)).
  revert H. generalize (fold_left (fun total code => (total + code)%N) str 0 mod 64511)%N.
  intros m H. lia.
Qed.

(** X2.  The port depends on the code units of the string only through
    their sum: two strings made of the same code units in another order
    get the same port. *)
Theorem port_of_rearranged_name (str1 str2 : list N) :
  Permutation str1 str2 ->
  Port.stringToUnreservedPortNumber str1 = Port.stringToUnreservedPortNumber str2.
Proof.
  intros P. unfold Port.stringToUnreservedPortNumber. cbv zeta.
  now rewrite (port_total_perm str1 str2 P).
Qed.

Lemma port_of_rearranged_name_witness :
  Port.stringToUnreservedPortNumber (Port.codeUnits "no")
  = Port.stringToUnreservedPortNumber (Port.codeUnits "on").
Proof.
  apply port_of_rearranged_name. vm_compute. apply perm_swap.
Defined.

(** ** The cache key and the artifact names *)

Lemma fromHex_table :
  forallb (fun n => match fromHex (hexByte (Z.of_nat n)) with
                    | [b] => Z.eqb b (Z.of_nat n)
                    | _ => false
                    end) (seq 0 256) = true.
Proof. vm_compute. reflexivity. Qed.

Lemma fromHex_hexByte (b : Z) (s : string) :
  0 <= b < 256 -> fromHex (hexByte b ++ s) = b :: fromHex s.
Proof.
  intros Hb.
  pose proof fromHex_table as T. rewrite forallb_forall in T.
  specialize (T (Z.to_nat b)).
  assert (I : In (Z.to_nat b) (seq 0 256)) by (apply in_seq; lia).
  specialize (T I). rewrite Z2Nat.id in T by lia.
  pose proof (hexByte_shape b Hb) as [L _].
  destruct (hexByte b) as [|hi [|lo [|x rest]]]; try discriminate L.
  rewrite !append_cons. cbn [fromHex String.append] in *.
  change ("" ++ s) with s.
  apply Z.eqb_eq in T. now rewrite T.
Qed.

Lemma fromHex_concat (l : list Z) :
  Forall (fun b => 0 <= b < 256) l ->
  fromHex (String.concat "" (map hexByte l)) = l.
Proof.
  induction 1 as [|b l Hb Hl IH]; [reflexivity|].
  cbn [map]. rewrite concat_empty_cons, fromHex_hexByte by assumption.
  now rewrite IH.
Qed.

(** X3.  The key is the SHA-256 digest written out digit by digit:
    reading the 64 characters of [generateHashFromArray] back two by two
    gives the 32 digest bytes, a byte below 16 keeping its leading zero.
    So two file lists have the same key exactly when their joined names
    have the same digest. *)
Theorem cache_key_decodes_to_digest (array1 array2 : list string) :
  fromHex (generateHashFromArray array1) = SHA256.digest (encode (join_empty array1)) /\
  (generateHashFromArray array1 = generateHashFromArray array2 <->
   SHA256.digest (encode (join_empty array1)) = SHA256.digest (encode (join_empty array2))).
Proof.
  assert (D : forall a, fromHex (generateHashFromArray a) = SHA256.digest (encode (join_empty a))).
  { intros a. unfold generateHashFromArray.
    apply (fromHex_concat (SHA256.digest (encode (join_empty a)))).
    apply List.Forall_forall. intros b. apply digest_range. }
  split; [apply D|]. split.
  - intros E. rewrite <- !D. now rewrite E.
  - intros E. unfold generateHashFromArray. now rewrite E.
Qed.

Lemma string_app_assoc (a b c : string) : (a ++ b) ++ c = a ++ b ++ c.
Proof.
  induction a as [|x a IH]; [reflexivity|]. rewrite !append_cons. now rewrite IH.
Qed.


Lemma replaceReserved_app (s1 s2 : string) :
  replaceReserved (s1 ++ s2) = replaceReserved s1 ++ replaceReserved s2.
Proof.
  induction s1 as [|c s1 IH]; [reflexivity|].
  rewrite append_cons. cbn [replaceReserved]. rewrite append_cons. now rewrite IH.
Qed.

Lemma replaceReserved_fixed (s : string) :
  isClean s = true -> replaceReserved s = s.
Proof.
  unfold isClean. induction s as [|c s IH]; [reflexivity|].
  cbn [list_ascii_of_string forallb replaceReserved]. intros H.
  apply andb_true_iff in H as [Hc Hs].
  apply negb_true_iff in Hc. rewrite Hc. now rewrite IH.
Qed.

Lemma isClean_hex (s : string) :
  forallb isLowerHex (list_ascii_of_string s) = true -> isClean s = true.
Proof.
  unfold isClean. induction (list_ascii_of_string s) as [|c l IH]; [reflexivity|].
  cbn [forallb]. intros H. apply andb_true_iff in H as [Hc Hl].
  rewrite (IH Hl), andb_true_r.
  unfold isLowerHex in Hc. apply existsb_exists in Hc as (d & Hd & E).
  apply Ascii.eqb_eq in E. subst d.
  cbn in Hd. repeat (destruct Hd as [<-|Hd]; [reflexivity|]). destruct Hd.
Qed.

(** X4.  The server applies the replacement of reserved characters to
    the whole artifact name, the fetch-API variants to the version only.
    The server's name is the fetch-API name of the replaced owner and
    repository; it is left unchanged by a second replacement; and the
    two names agree whenever owner and repository hold no reserved
    character. *)
Theorem artifact_names_across_variants (owner repo version : string)
    (fileList : list string) :
  let key := generateHashFromArray fileList in
  Server.assetName owner repo version key =
    workerFileName (replaceReserved owner) (replaceReserved repo) version key /\
  replaceReserved (Server.assetName owner repo version key) =
    Server.assetName owner repo version key /\
  (isClean owner = true -> isClean repo = true ->
   Server.assetName owner repo version key = workerFileName owner repo version key).
Proof.
  intros key.
  assert (K : replaceReserved key = key).
  { apply replaceReserved_fixed, isClean_hex, generateHashFromArray_hex. }
  assert (A : Server.assetName owner repo version key =
              workerFileName (replaceReserved owner) (replaceReserved repo) version key).
  { unfold Server.assetName, workerFileName.
    rewrite !replaceReserved_app, K. reflexivity. }
  split; [exact A|]. split.
  - unfold Server.assetName. apply replaceReserved_fixed.
    apply replaceReserved_clean.
  - intros Ho Hr. rewrite A.
    now rewrite (replaceReserved_fixed owner Ho), (replaceReserved_fixed repo Hr).
Qed.

Lemma artifact_names_across_variants_witness :
  Server.assetName "libccy" "noname" "v1/2" (generateHashFromArray ["a.txt"]) =
  workerFileName "libccy" "noname" "v1/2" (generateHashFromArray ["a.txt"]).
Proof.
  apply (artifact_names_across_variants "libccy" "noname" "v1/2" ["a.txt"]);
    reflexivity.
Defined.

(** X5.  The cache path of the server is determined by the text
    owner-repo-version after replacement and by the joined file names:
    two requests that agree on these share one cache path, although
    their owners and repositories differ (owner a with repository b-c,
    and owner a-b with repository c). *)
Theorem cache_path_shared (owner1 repo1 version1 owner2 repo2 version2 : string)
    (fileList1 fileList2 : list string) :
  replaceReserved (owner1 ++ "-" ++ repo1 ++ "-" ++ version1) =
  replaceReserved (owner2 ++ "-" ++ repo2 ++ "-" ++ version2) ->
  join_empty fileList1 = join_empty fileList2 ->
  Server.joinPath "noname"
    (Server.assetName owner1 repo1 version1 (generateHashFromArray fileList1)) =
  Server.joinPath "noname"
    (Server.assetName owner2 repo2 version2 (generateHashFromArray fileList2)).
Proof.
  intros Names Lists.
  assert (K : generateHashFromArray fileList1 = generateHashFromArray fileList2).
  { unfold generateHashFromArray. now rewrite Lists. }
  assert (A : forall o r v k,
            Server.assetName o r v k =
            "noname-asset-" ++ replaceReserved (o ++ "-" ++ r ++ "-" ++ v)
              ++ replaceReserved ("-" ++ k ++ ".zip")).
  { intros o r v k. unfold Server.assetName.
    replace ("noname-asset-" ++ o ++ "-" ++ r ++ "-" ++ v ++ "-" ++ k ++ ".zip")
      with ("noname-asset-" ++ (o ++ "-" ++ r ++ "-" ++ v) ++ "-" ++ k ++ ".zip")
      by (now rewrite !string_app_assoc).
    now rewrite !replaceReserved_app. }
  now rewrite !A, Names, K.
Qed.

Lemma cache_path_shared_witness :
  Server.joinPath "noname"
    (Server.assetName "a" "b-c" "v1" (generateHashFromArray ["x"])) =
  Server.joinPath "noname"
    (Server.assetName "a-b" "c" "v1" (generateHashFromArray ["x"])).
Proof.
  apply (cache_path_shared "a" "b-c" "v1" "a-b" "c" "v1" ["x"] ["x"]); reflexivity.
Defined.


(** ** The answers of the server *)

(** X6.  A request that is not a POST, or whose action is not
    downloadAssets, is answered 400 with no header and no body, and the
    response is ended; the only platform calls are [writeHead] and
    [end]: nothing is fetched, and files, directories and outstanding
    removals are as before. *)
Theorem rejected_request_untouched (env : Env) (method : string) (noname : Noname)
    (w : World) :
  res w = freshResponse ->
  method <> "POST" \/ action noname <> "downloadAssets" ->
  let run := Server.nonameRequestListener env method noname w in
  fst run = Ok tt /\
  res (snd run) = {| headersSent := true; statusCode := Some 400; headers := [];
                     written := []; ended := true; destroyed := false |} /\
  trace (snd run) = (trace w ++ [EvWriteHead 400; EvEnd])%list /\
  files (snd run) = files w /\ dirs (snd run) = dirs w /\
  pending (snd run) = pending w /\ clock (snd run) = clock w.
Proof.
  intros Fresh Bad. cbv zeta.
  assert (E : Server.nonameRequestListener env method noname w =
              (writeHead env 400 [] ;; res_end) w).
  { unfold Server.nonameRequestListener.
    destruct (String.eqb_spec method "POST") as [->|NM]; cbn [negb]; [|reflexivity].
    destruct (String.eqb_spec (action noname) "downloadAssets") as [EA|NA]; cbn [negb];
      [|reflexivity].
    destruct Bad as [Bad|Bad]; contradiction. }
  rewrite E. unfold bind, writeHead, res_end, effect, res_finish.
  rewrite Fresh. cbn. rewrite <- app_assoc. repeat split; reflexivity.
Qed.

Lemma rejected_request_untouched_witness :
  let run := Server.nonameRequestListener Sample.offline "GET" Sample.plainRequest
               Sample.emptyDisk in
  fst run = Ok tt /\
  res (snd run) = {| headersSent := true; statusCode := Some 400; headers := [];
                     written := []; ended := true; destroyed := false |} /\
  trace (snd run) = [EvWriteHead 400; EvEnd] /\
  files (snd run) = ∅ /\ dirs (snd run) = ∅ /\
  pending (snd run) = [] /\ clock (snd run) = 0%nat.
Proof.
  apply (rejected_request_untouched Sample.offline "GET" Sample.plainRequest
           Sample.emptyDisk).
  - reflexivity.
  - left. discriminate.
Defined.

Lemma resolveVersion_throws (env : Env) (version : option string) (owner repo : string)
    (w w0 : World) (e : Thrown) :
  Server.resolveVersion env version owner repo w = (Throw e, w0) ->
  isFalsy version = true /\ w0 = tick (emit (EvFetch (Server.tagsUrl owner repo)) w).
Proof.
  unfold Server.resolveVersion. destruct (isFalsy version); [|discriminate].
  unfold Server.getLatestVersionFromGitHub, bind, fetch, readJson.
  destruct (net env (clock w) (Server.tagsUrl owner repo)) as [e0|r].
  - intros [= _ <-]. auto.
  - destruct (ok r); cbn [negb].
    + destruct (json r) as [tags|e1].
      * destruct (firstTagNot1998 tags); [discriminate|]. intros [= _ <-]. auto.
      * intros [= _ <-]. auto.
    + intros [= _ <-]. auto.
Qed.

(** X7.  When the version of a request cannot be resolved, the server
    answers 500 with an empty body after the one query of the tag list
    and the logging of the error.  [asset] is still empty, so no
    [unlink] is issued, and no file or directory is looked at or
    changed. *)
Theorem unresolved_version_leaves_disk (env : Env) (noname : Noname) (w w0 : World)
    (e : Thrown) :
  action noname = "downloadAssets" ->
  res w = freshResponse ->
  Server.resolveVersion env (version noname) (ownerOf noname) (repoOf noname) w
    = (Throw e, w0) ->
  let w' := snd (serve env noname w) in
  fst (serve env noname w) = Ok tt /\
  trace w' = (trace w ++ [EvFetch (Server.tagsUrl (ownerOf noname) (repoOf noname));
                          EvConsoleError e; EvWriteHead 500; EvEnd])%list /\
  res w' = {| headersSent := true; statusCode := Some 500; headers := [];
              written := []; ended := true; destroyed := false |} /\
  files w' = files w /\ dirs w' = dirs w /\ pending w' = pending w.
Proof.
  intros A Fresh R. cbv zeta.
  rewrite (serve_eq env noname w A).
  pose proof (tryBlock_frame env (version noname) (ownerOf noname) (repoOf noname)
                (fileList noname) w) as T.
  rewrite R in T. fold (tryOf env noname w) in T. rewrite T.
  apply resolveVersion_throws in R as [_ ->].
  unfold Server.catchBlock, bind, console_error, effect, writeHead, res_end, res_finish,
    unlink_detached, ret.
  destruct w as [f d p c t r]. cbn in Fresh. subst r. cbn.
  rewrite <- ?app_assoc. repeat split; reflexivity.
Qed.

Lemma unresolved_version_leaves_disk_witness :
  let noname := Sample.request None ["a.txt"] in
  let w' := snd (serve Sample.offline noname Sample.stocked) in
  fst (serve Sample.offline noname Sample.stocked) = Ok tt /\
  trace w' = [EvFetch (Server.tagsUrl "o" "r");
              EvConsoleError (ErrorObj "fetch failed"); EvWriteHead 500; EvEnd] /\
  res w' = {| headersSent := true; statusCode := Some 500; headers := [];
              written := []; ended := true; destroyed := false |} /\
  files w' = files Sample.stocked /\ dirs w' = dirs Sample.stocked /\ pending w' = [].
Proof.
  apply (unresolved_version_leaves_disk Sample.offline (Sample.request None ["a.txt"])
           Sample.stocked
           (tick (emit (EvFetch (Server.tagsUrl "o" "r")) Sample.stocked))
           (ErrorObj "fetch failed")).
  - reflexivity.
  - reflexivity.
  - reflexivity.
Defined.

(** *** A build writes one archive to two places *)









(** *** Every request is answered, and touches its own artifact only *)





Lemma res_receive_files (cs : list Chunk) (w : World) :
  files (res_receive cs w) = files w.
Proof. unfold res_receive. destruct (_ || _); reflexivity. Qed.

Lemma res_finish_files (w : World) : files (res_finish w) = files w.
Proof. unfold res_finish. destruct (destroyed _); reflexivity. Qed.

Lemma archive_emit_files (path : string) (cs : list Chunk) (w : World) (p : string) :
  p <> path -> files (archive_emit (teed path) cs w) !! p = files w !! p.
Proof.
  intros NE. rewrite archive_emit_teed. cbn [files with_files].
  rewrite lookup_alter_ne by congruence. now rewrite res_receive_files.
Qed.

Lemma downloads_files (env : Env) (path owner repo version : string)
    (fileList : list string) (w : World) (p : string) :
  p <> path ->
  files (snd (promiseAll_limit (Server.downloadInto env (teed path) owner repo version)
                fileList w)) !! p = files w !! p.
Proof.
  intros NE. revert w. induction fileList as [|file rest IH]; intros w; [reflexivity|].
  assert (Step : promiseAll_limit (Server.downloadInto env (teed path) owner repo version)
                   (file :: rest) w =
                 match Server.downloadInto env (teed path) owner repo version file w with
                 | (Ok _, w1) =>
                     promiseAll_limit (Server.downloadInto env (teed path) owner repo version)
                       rest w1
                 | (Throw e, w1) => (Throw e, w1)
                 end) by reflexivity.
  rewrite Step. clear Step.
  destruct (downloadInto_cases env path owner repo version file w)
    as [(k & b & _ & _ & _ & ->)|(_ & ->)].
  - rewrite IH, archive_emit_files by exact NE. cbn [files emit].
    now destruct (fetches_fields (Server.rawUrl owner repo version file) (S k) w) as (-> & _).
  - cbn [snd].
    now destruct (fetches_fields (Server.rawUrl owner repo version file) 5 w) as (-> & _).
Qed.

Lemma build_files (env : Env) (owner repo version : string) (fileList : list string)
    (asset path : string) (w : World) (p : string) :
  p <> path ->
  files (snd (Server.buildAndRespond env owner repo version fileList asset path w)) !! p
  = files w !! p.
Proof.
  intros NE. rewrite buildAndRespond_eq, sendZIPFile_eq.
  destruct (headersSent (res w)); [reflexivity|].
  destruct (headersAccepted env asset); [|reflexivity].
  cbv zeta.
  set (w1 := with_res _ _).
  set (w2 := emit (EvAccess "noname") (emit EvArchiver w1)).
  change (access_ok "noname" w1) with (access_ok "noname" w2).
  destruct (mkdir_step env w2) as (F3 & _).
  destruct (if access_ok "noname" w2 then (Ok tt, w2) else mkdir env "noname" w2)
    as [[[]|e3] w3]; cbn [fst snd] in *; [|now rewrite F3].
  set (w4 := with_files _ _).
  pose proof (downloads_files env path owner repo version fileList w4 p NE) as F5.
  assert (F4 : files w4 !! p = files w !! p).
  { subst w4. cbn [files with_files]. rewrite lookup_insert_ne by congruence.
    now rewrite F3. }
  destruct (promiseAll_limit _ fileList w4) as [[[]|e5] w5]; cbn [fst snd] in *;
    [|now rewrite F5].
  rewrite archive_finalize_teed.
  destruct (finalize_fault env (clock w5)); cbn [snd].
  - cbn [files tick emit]. now rewrite F5.
  - rewrite res_finish_files, archive_emit_files by exact NE.
    cbn [files tick emit]. now rewrite F5.
Qed.

(** X11.  A request touches its own artifact only: whatever happens,
    every file at another path than the one of the request is as
    before, the only directory that may appear is the cache directory,
    and at most one removal is issued, for the path of the request. *)
Theorem request_confined_to_its_artifact (env : Env) (noname : Noname) (w : World) :
  action noname = "downloadAssets" ->
  let own := Server.path (fst (tryOf env noname w)) in
  let w' := snd (serve env noname w) in
  (forall p, p <> own -> files w' !! p = files w !! p) /\
  (forall p, p ∈ dirs w' -> p ∈ dirs w \/ p = "noname") /\
  (pending w' = pending w \/ pending w' = (pending w ++ [own])%list).
Proof.
  intros A. cbv zeta.
  assert (F : forall p, p <> Server.path (fst (tryOf env noname w)) ->
                files (snd (snd (tryOf env noname w))) !! p = files w !! p).
  { intros p NE.
    pose proof (tryBlock_frame env (version noname) (ownerOf noname) (repoOf noname)
                  (fileList noname) w) as TF.
    pose proof (resolveVersion_frame env (version noname) (ownerOf noname) (repoOf noname) w)
      as (F0 & _).
    fold (tryOf env noname w) in TF.
    destruct (Server.resolveVersion env (version noname) (ownerOf noname) (repoOf noname) w)
      as [[v|e] w0] eqn:R; cbn [snd] in *.
    2:{ rewrite TF. cbn [snd]. now rewrite F0. }
    rewrite TF in NE. cbn [Server.path] in NE.
    rewrite (tryOf_branch env noname w v w0 R). cbn [snd].
    destruct (access_ok _ w).
    - destruct (respondFromCache_spec env
                  (Server.assetName (ownerOf noname) (repoOf noname) v (keyOf noname))
                  (Server.joinPath "noname"
                     (Server.assetName (ownerOf noname) (repoOf noname) v (keyOf noname)))
                  (emit (EvAccess (Server.joinPath "noname"
                     (Server.assetName (ownerOf noname) (repoOf noname) v (keyOf noname)))) w0))
        as (_ & _ & Fs & _).
      cbv zeta in Fs. rewrite Fs. cbn [files emit]. now rewrite F0.
    - rewrite build_files by exact NE. cbn [files emit]. now rewrite F0. }
  pose proof (tryBlock_spec env (version noname) (ownerOf noname) (repoOf noname)
                (fileList noname) w) as (P1 & D1 & _).
  fold (tryOf env noname w) in P1, D1. cbv zeta in P1, D1.
  rewrite (serve_eq env noname w A).
  destruct (tryOf env noname w) as [frame [[[]|e] w1]]; cbn [fst snd] in *.
  - split; [exact F|]. split; [exact D1|]. now left.
  - destruct (catchBlock_spec env frame e w1) as (_ & Fc & Dc & Pc & _).
    cbv zeta in Fc, Dc, Pc. rewrite Fc, Dc, Pc, P1.
    split; [exact F|]. split; [exact D1|].
    destruct (String.eqb (Server.asset frame) ""); [left; apply app_nil_r|now right].
Qed.

Lemma request_confined_to_its_artifact_witness :
  let noname := Sample.plainRequest in
  let own := Server.path (fst (tryOf Sample.filesMissing noname Sample.stocked)) in
  let w' := snd (serve Sample.filesMissing noname Sample.stocked) in
  (forall p, p <> own -> files w' !! p = files Sample.stocked !! p) /\
  (forall p, p ∈ dirs w' -> p ∈ dirs Sample.stocked \/ p = "noname") /\
  (pending w' = pending Sample.stocked \/
   pending w' = (pending Sample.stocked ++ [own])%list).
Proof.
  apply (request_confined_to_its_artifact Sample.filesMissing Sample.plainRequest
           Sample.stocked).
  reflexivity.
Defined.

(** *** The fetches of a request *)

Lemma fetched_app (t1 t2 : list Event) : fetched (t1 ++ t2) = (fetched t1 ++ fetched t2)%list.
Proof. apply omap_app. Qed.

Lemma fetched_repeat (input : string) (k : nat) :
  fetched (repeat (EvFetch input) k) = repeat input k.
Proof. induction k as [|k IH]; [reflexivity|]. cbn. now rewrite <- IH. Qed.

Lemma fetchCount_fetches (input : string) (k : nat) (w : World) :
  fetchCount (fetches input k w) = (fetchCount w + k)%nat.
Proof.
  unfold fetchCount.
  destruct (fetches_fields input k w) as (_ & _ & _ & _ & _ & ->).
  now rewrite fetched_app, length_app, fetched_repeat, repeat_length.
Qed.

Lemma archive_emit_trace (path : string) (cs : list Chunk) (w : World) :
  trace (archive_emit (teed path) cs w) = trace w.
Proof.
  rewrite archive_emit_teed. cbn [trace with_files].
  unfold res_receive. destruct (_ || _); reflexivity.
Qed.

Lemma downloads_budget (env : Env) (path owner repo version : string)
    (fileList : list string) (w : World) :
  (fetchCount (snd (promiseAll_limit (Server.downloadInto env (teed path) owner repo version)
                     fileList w))
   <= fetchCount w + 5 * length fileList)%nat.
Proof.
  revert w. induction fileList as [|file rest IH]; intros w; [cbn; lia|].
  assert (Step : promiseAll_limit (Server.downloadInto env (teed path) owner repo version)
                   (file :: rest) w =
                 match Server.downloadInto env (teed path) owner repo version file w with
                 | (Ok _, w1) =>
                     promiseAll_limit (Server.downloadInto env (teed path) owner repo version)
                       rest w1
                 | (Throw e, w1) => (Throw e, w1)
                 end) by reflexivity.
  rewrite Step. clear Step. cbn [length].
  destruct (downloadInto_cases env path owner repo version file w)
    as [(k & b & Hk & _ & _ & ->)|(_ & ->)].
  - etransitivity; [apply IH|].
    unfold fetchCount at 1. rewrite archive_emit_trace. cbn [trace emit].
    rewrite fetched_app, length_app. cbn [fetched omap length].
    fold (fetchCount (fetches (Server.rawUrl owner repo version file) (S k) w)).
    rewrite fetchCount_fetches. cbn. lia.
  - cbn [snd]. rewrite fetchCount_fetches. lia.
Qed.

Lemma fetchCount_emit (e : Event) (w : World) :
  fetched [e] = [] -> fetchCount (emit e w) = fetchCount w.
Proof.
  intros H. unfold fetchCount. cbn [trace emit].
  rewrite fetched_app, length_app, H. cbn. lia.
Qed.

Lemma fetchCount_trace (w w' : World) : trace w' = trace w -> fetchCount w' = fetchCount w.
Proof. unfold fetchCount. now intros ->. Qed.

Lemma build_budget (env : Env) (owner repo version : string) (fileList : list string)
    (asset path : string) (w : World) :
  (fetchCount (snd (Server.buildAndRespond env owner repo version fileList asset path w))
   <= fetchCount w + 5 * length fileList)%nat.
Proof.
  rewrite buildAndRespond_eq, sendZIPFile_eq.
  destruct (headersSent (res w)); [cbn [snd]; rewrite fetchCount_emit by reflexivity; lia|].
  destruct (headersAccepted env asset);
    [|cbn [snd]; rewrite fetchCount_emit by reflexivity; lia].
  cbv zeta.
  set (w1 := with_res _ _).
  set (w2 := emit (EvAccess "noname") (emit EvArchiver w1)).
  change (access_ok "noname" w1) with (access_ok "noname" w2).
  assert (C2 : fetchCount w2 = fetchCount w).
  { subst w2. rewrite !fetchCount_emit by reflexivity. subst w1.
    unfold fetchCount. cbn [trace with_res emit].
    rewrite fetched_app. cbn. now rewrite app_nil_r. }
  destruct (mkdir_step env w2) as (_ & _ & _ & _ & T3).
  assert (C3 : fetchCount (snd (if access_ok "noname" w2 then (Ok tt, w2)
                                else mkdir env "noname" w2)) = fetchCount w).
  { rewrite <- C2. unfold fetchCount. destruct T3 as [->| ->]; [reflexivity|].
    rewrite fetched_app. cbn. now rewrite app_nil_r. }
  destruct (if access_ok "noname" w2 then (Ok tt, w2) else mkdir env "noname" w2)
    as [[[]|e3] w3]; cbn [fst snd] in *; [|lia].
  set (w4 := with_files _ _).
  assert (C4 : fetchCount w4 = fetchCount w).
  { rewrite <- C3. subst w4. unfold fetchCount. cbn. rewrite fetched_app. cbn.
    now rewrite app_nil_r. }
  pose proof (downloads_budget env path owner repo version fileList w4) as B5.
  destruct (promiseAll_limit _ fileList w4) as [[[]|e5] w5]; cbn [fst snd] in *; [|lia].
  rewrite archive_finalize_teed.
  assert (C6 : fetchCount (tick (emit EvFinalize w5)) = fetchCount w5).
  { unfold fetchCount. cbn. rewrite fetched_app. cbn. now rewrite app_nil_r. }
  destruct (finalize_fault env (clock w5)); cbn [snd]; [lia|].
  assert (C7 : fetchCount (res_finish (archive_emit (teed path) [EndOfArchive]
                                         (tick (emit EvFinalize w5)))) = fetchCount w5).
  { rewrite <- C6. apply fetchCount_trace.
    unfold res_finish. destruct (destroyed _); cbn [trace with_res];
      apply archive_emit_trace. }
  lia.
Qed.

Lemma try_budget (env : Env) (noname : Noname) (w : World) :
  (fetchCount (snd (snd (tryOf env noname w)))
   <= fetchCount w + 1 + 5 * length (fileList noname))%nat.
Proof.
  pose proof (tryBlock_frame env (version noname) (ownerOf noname) (repoOf noname)
                (fileList noname) w) as TF.
  pose proof (resolveVersion_frame env (version noname) (ownerOf noname) (repoOf noname) w)
    as (_ & _ & _ & _ & T0).
  fold (tryOf env noname w) in TF.
  assert (C0 : (fetchCount (snd (Server.resolveVersion env (version noname) (ownerOf noname)
                                   (repoOf noname) w)) <= fetchCount w + 1)%nat).
  { unfold fetchCount. cbv zeta in T0. destruct T0 as [->| ->]; [lia|].
    rewrite fetched_app, length_app. cbn. lia. }
  destruct (Server.resolveVersion env (version noname) (ownerOf noname) (repoOf noname) w)
    as [[v|e] w0] eqn:R; cbn [snd] in *.
  2:{ rewrite TF. cbn [snd]. lia. }
  rewrite (tryOf_branch env noname w v w0 R). cbn [snd].
  set (asset := Server.assetName (ownerOf noname) (repoOf noname) v (keyOf noname)).
  set (path := Server.joinPath "noname" asset).
  assert (C1 : fetchCount (emit (EvAccess path) w0) = fetchCount w0)
    by (apply fetchCount_emit; reflexivity).
  destruct (access_ok path w).
  - destruct (respondFromCache_spec env asset path (emit (EvAccess path) w0))
      as (_ & _ & _ & (tr & T & _ & _ & Ft) & _).
    cbv zeta in T.
    assert (C2 : fetchCount (snd (Server.respondFromCache env asset path
                                    (emit (EvAccess path) w0))) = fetchCount w0).
    { rewrite <- C1. unfold fetchCount. rewrite T, fetched_app, Ft. now rewrite app_nil_r. }
    lia.
  - pose proof (build_budget env (ownerOf noname) (repoOf noname) v (fileList noname)
                  asset path (emit (EvAccess path) w0)).
    lia.
Qed.

(** X18.  A request to the server issues at most one fetch for the tag
    list and five for each file of the list, whatever the network
    answers and whether the request is served from the cache, built or
    failed; a request that is rejected with 400 issues none. *)
Theorem request_fetches_within_budget (env : Env) (method : string) (noname : Noname)
    (w : World) :
  (fetchCount (snd (Server.nonameRequestListener env method noname w))
   <= fetchCount w + 1 + 5 * length (fileList noname))%nat /\
  (method <> "POST" \/ action noname <> "downloadAssets" ->
   fetchCount (snd (Server.nonameRequestListener env method noname w)) = fetchCount w).
Proof.
  assert (Rejected400 : fetchCount (snd ((writeHead env 400 [] ;; res_end) w)) = fetchCount w).
  { unfold bind, writeHead, res_end, effect, res_finish, fetchCount.
    destruct (headersSent (res w)); cbn.
    - rewrite fetched_app. cbn. now rewrite app_nil_r.
    - destruct (destroyed (res w)); cbn; rewrite <- ?app_assoc, fetched_app; cbn;
        now rewrite app_nil_r. }
  destruct (String.eqb_spec method "POST") as [->|NM].
  2:{ unfold Server.nonameRequestListener.
      destruct (String.eqb_spec method "POST") as [->|_]; [contradiction|]. cbn [negb].
      rewrite Rejected400. split; [lia|reflexivity]. }
  destruct (String.eqb_spec (action noname) "downloadAssets") as [A|NA].
  2:{ unfold Server.nonameRequestListener. cbn [String.eqb Ascii.eqb Bool.eqb negb].
      destruct (String.eqb_spec (action noname) "downloadAssets") as [A|_]; [contradiction|].
      cbn [negb]. rewrite Rejected400. split; [lia|reflexivity]. }
  split; [|intros [B|B]; contradiction].
  fold (serve env noname w). rewrite (serve_eq env noname w A).
  pose proof (try_budget env noname w) as B.
  destruct (tryOf env noname w) as [frame [[[]|e] w1]]; cbn [fst snd] in *; [exact B|].
  destruct (catchBlock_spec env frame e w1) as (_ & _ & _ & _ & Tc & _).
  cbv zeta in Tc.
  assert (C : fetchCount (snd (Server.catchBlock env frame e w1)) = fetchCount w1).
  { unfold fetchCount. rewrite Tc, fetched_app.
    destruct (headersSent (res w1)), (String.eqb (Server.asset frame) ""); cbn;
      now rewrite app_nil_r. }
  lia.
Qed.

(** ** The fetch-API variant that fetches file by file *)


Lemma fetchArrayBuffer_attempt_eq (env : Env) (input : string) (errors : list string)
    (w : World) :
  Worker.fetchArrayBuffer_attempt env input errors w =
  (Ok match attemptBuffer (net env (clock w) input) with
      | Some buffer => inl buffer
      | None => inr (errors ++ collected env input (clock w) 1)%list
      end,
   tick (emit (EvFetch input) w)).
Proof.
  unfold Worker.fetchArrayBuffer_attempt, try_catch, bind, fetch, collected.
  unfold attemptBuffer, attemptError.
  destruct (net env (clock w) input) as [[m|]|r] eqn:N; cbn; rewrite ?N.
  - reflexivity.
  - now rewrite app_nil_r.
  - destruct (ok r); reflexivity.
Qed.

Lemma collected_S (env : Env) (input : string) (t k : nat) :
  collected env input t (S k) =
  (collected env input t 1 ++ collected env input (S t) k)%list.
Proof.
  unfold collected. cbn.
  destruct (attemptError input (net env t input)); reflexivity.
Qed.

Lemma fetchArrayBuffer_loop_cases (env : Env) (input : string) (n : nat)
    (errors : list string) (w : World) :
  (exists k buffer, (k < n)%nat /\
     (forall j, (j < k)%nat -> attemptBuffer (net env (clock w + j) input) = None) /\
     attemptBuffer (net env (clock w + k) input) = Some buffer /\
     Worker.fetchArrayBuffer_loop env input n errors w
       = (Ok (inl buffer), fetches input (S k) w)) \/
  ((forall j, (j < n)%nat -> attemptBuffer (net env (clock w + j) input) = None) /\
   Worker.fetchArrayBuffer_loop env input n errors w
     = (Ok (inr (errors ++ collected env input (clock w) n)%list), fetches input n w)).
Proof.
  revert errors w. induction n as [|n IH]; intros errors w.
  - right. split; [intros j Hj; lia|]. cbn. unfold ret. now rewrite app_nil_r.
  - assert (Step : Worker.fetchArrayBuffer_loop env input (S n) errors w =
                   match attemptBuffer (net env (clock w) input) with
                   | Some buffer => (Ok (inl buffer), tick (emit (EvFetch input) w))
                   | None => Worker.fetchArrayBuffer_loop env input n
                               (errors ++ collected env input (clock w) 1)%list
                               (tick (emit (EvFetch input) w))
                   end).
    { cbn [Worker.fetchArrayBuffer_loop]. unfold bind.
      rewrite fetchArrayBuffer_attempt_eq.
      destruct (attemptBuffer (net env (clock w) input)); reflexivity. }
    rewrite Step. clear Step.
    destruct (attemptBuffer (net env (clock w) input)) as [buffer|] eqn:B.
    + left. exists 0%nat, buffer. rewrite Nat.add_0_r.
      split; [lia|]. split; [intros j Hj; lia|]. split; [exact B|]. reflexivity.
    + destruct (IH (errors ++ collected env input (clock w) 1)%list
                  (tick (emit (EvFetch input) w)))
        as [(k & buffer & Hk & None_before & Hit & E)|(None_all & E)];
        cbn [clock tick emit] in *.
      * left. exists (S k), buffer.
        split; [lia|]. split.
        { intros [|j] Hj; [rewrite Nat.add_0_r; exact B|].
          rewrite <- Nat.add_succ_comm. apply None_before. lia. }
        split; [rewrite <- Nat.add_succ_comm; exact Hit|].
        rewrite E. now rewrite (fetches_S input (S k) w).
      * right. split.
        { intros [|j] Hj; [rewrite Nat.add_0_r; exact B|].
          rewrite <- Nat.add_succ_comm. apply None_all. lia. }
        rewrite E, (collected_S env input (clock w) n), <- app_assoc,
          (fetches_S input n w). reflexivity.
Qed.

(** *** The archive object *)

Lemma zip_file_names (n d : string) (zip : list (string * string)) (x : string) :
  In x (map fst (Worker.zip_file n d zip)) <-> x = n \/ In x (map fst zip).
Proof.
  induction zip as [|[m e] zip IH]; cbn.
  - intuition.
  - destruct (String.eqb_spec m n) as [->|NE]; cbn; [intuition|].
    rewrite IH. intuition.
Qed.

Lemma zip_file_NoDup (n d : string) (zip : list (string * string)) :
  NoDup (map fst zip) -> NoDup (map fst (Worker.zip_file n d zip)).
Proof.
  induction zip as [|[m e] zip IH]; cbn; intros ND.
  - constructor; [apply not_elem_of_nil|constructor].
  - apply NoDup_cons in ND as [NI ND].
    destruct (String.eqb_spec m n) as [->|NE]; cbn.
    + apply NoDup_cons. auto.
    + apply NoDup_cons. split; [|auto].
      rewrite list_elem_of_In, zip_file_names, <- list_elem_of_In. intuition.
Qed.

Lemma zip_file_entries (n d : string) (zip : list (string * string)) (x y : string) :
  In (x, y) (Worker.zip_file n d zip) -> (x, y) = (n, d) \/ In (x, y) zip.
Proof.
  induction zip as [|[m e] zip IH]; cbn.
  - intuition.
  - destruct (String.eqb_spec m n) as [->|NE]; cbn; intuition.
Qed.


Lemma sameDisk_refl (w : World) : sameDisk w w.
Proof. repeat split. Qed.

Lemma sameDisk_trans (w1 w2 w3 : World) : sameDisk w1 w2 -> sameDisk w2 w3 -> sameDisk w1 w3.
Proof. unfold sameDisk. intuition congruence. Qed.

Lemma sameDisk_fetches (input : string) (k : nat) (w : World) :
  sameDisk w (fetches input k w).
Proof.
  destruct (fetches_fields input k w) as (F & D & P & R & _). repeat split; auto.
Qed.

Lemma fetchesWithin_refl (w : World) : fetchesWithin 0 w w.
Proof. exists []. now rewrite app_nil_r. Qed.

Lemma fetchesWithin_trans (a b : nat) (w1 w2 w3 : World) :
  fetchesWithin a w1 w2 -> fetchesWithin b w2 w3 -> fetchesWithin (a + b) w1 w3.
Proof.
  intros (t1 & T1 & L1) (t2 & T2 & L2). exists (t1 ++ t2)%list. split.
  - rewrite T2, T1. now rewrite app_assoc.
  - rewrite fetched_app, length_app. lia.
Qed.

Lemma fetchesWithin_weaken (a b : nat) (w1 w2 : World) :
  (a <= b)%nat -> fetchesWithin a w1 w2 -> fetchesWithin b w1 w2.
Proof. intros L (t & T & H). exists t. split; [exact T|lia]. Qed.

Lemma fetchesWithin_fetches (input : string) (k : nat) (w : World) :
  fetchesWithin k w (fetches input k w).
Proof.
  destruct (fetches_fields input k w) as (_ & _ & _ & _ & _ & T).
  exists (repeat (EvFetch input) k). split; [exact T|].
  rewrite fetched_repeat, repeat_length. lia.
Qed.

Lemma fetchArrayBuffer_step (env : Env) (input : string) (w : World) :
  let run := Worker.fetchArrayBuffer env input 5 w in
  sameDisk w (snd run) /\ fetchesWithin 5 w (snd run) /\
  forall buffer, fst run = Ok buffer -> exists t, attemptBuffer (net env t input) = Some buffer.
Proof.
  cbv zeta. unfold Worker.fetchArrayBuffer, bind.
  destruct (fetchArrayBuffer_loop_cases env input 5 [] w)
    as [(k & buffer & Hk & _ & Hit & ->)|(_ & ->)]; cbn [fst snd].
  - split; [apply sameDisk_fetches|]. split.
    + apply (fetchesWithin_weaken (S k)); [lia|apply fetchesWithin_fetches].
    + intros b [= <-]. eauto.
  - split; [apply sameDisk_fetches|]. split; [apply fetchesWithin_fetches|].
    intros b. discriminate.
Qed.

Lemma downloadAll_spec (env : Env) (owner repo version : string) (fileList : list string)
    (zip : list (string * string)) (w : World) :
  let run := Worker.downloadAll env owner repo version fileList zip w in
  sameDisk w (snd run) /\ fetchesWithin (5 * length fileList) w (snd run) /\
  forall zip', fst run = Ok zip' ->
    (NoDup (map fst zip) -> NoDup (map fst zip')) /\
    (forall f, In f (map fst zip') <-> In f fileList \/ In f (map fst zip)) /\
    (forall f d, In (f, d) zip' ->
       In (f, d) zip \/
       exists t, attemptBuffer (net env t (Worker.rawUrl owner repo version f)) = Some d).
Proof.
  cbv zeta. revert zip w. induction fileList as [|file rest IH]; intros zip w.
  - cbn. split; [apply sameDisk_refl|]. split; [apply fetchesWithin_refl|].
    intros zip' [= <-]. intuition.
  - assert (Step : Worker.downloadAll env owner repo version (file :: rest) zip w =
                   match Worker.fetchArrayBuffer env
                           (Worker.rawUrl owner repo version file) 5 w with
                   | (Ok buffer, w1) =>
                       Worker.downloadAll env owner repo version rest
                         (Worker.zip_file file buffer zip) w1
                   | (Throw e, w1) => (Throw e, w1)
                   end) by reflexivity.
    rewrite Step. clear Step.
    destruct (fetchArrayBuffer_step env (Worker.rawUrl owner repo version file) w)
      as (S1 & B1 & Got).
    destruct (Worker.fetchArrayBuffer env (Worker.rawUrl owner repo version file) 5 w)
      as [[buffer|e] w1]; cbn [fst snd] in *.
    + destruct (IH (Worker.zip_file file buffer zip) w1) as (S2 & B2 & Res).
      split; [eapply sameDisk_trans; eauto|]. split.
      { apply (fetchesWithin_weaken (5 + 5 * length rest)); [cbn [length]; lia|].
        exact (fetchesWithin_trans 5 (5 * length rest) w w1 _ B1 B2). }
      intros zip' Hz. destruct (Res zip' Hz) as (ND & Names & Data).
      destruct (Got buffer eq_refl) as (t & Ht).
      split; [intros H; apply ND, zip_file_NoDup, H|]. split.
      * intros f. rewrite Names, zip_file_names. cbn [In]. intuition.
      * intros f d H. destruct (Data f d H) as [H'|H']; [|auto].
        apply zip_file_entries in H' as [[= -> ->]|H']; eauto.
    + split; [exact S1|]. split.
      { apply (fetchesWithin_weaken 5); [cbn [length]; lia|exact B1]. }
      intros zip'. discriminate.
Qed.

Lemma worker_disposition (owner repo version key : string) :
  "attachment; filename=" ++ dquote ++ "noname-asset-" ++ owner ++ "-" ++ repo ++ "-"
    ++ replaceReserved version ++ "-" ++ key ++ ".zip" ++ dquote
  = disposition (workerFileName owner repo version key).
Proof.
  unfold disposition, workerFileName. rewrite !string_app_assoc. reflexivity.
Qed.

Lemma versionOf_step (env : Env) (noname : Noname) (w : World) :
  sameDisk w (snd (versionOf env noname w)) /\
  fetchesWithin 1 w (snd (versionOf env noname w)).
Proof.
  unfold versionOf. destruct (isFalsy (version noname)).
  - assert (E : snd (Worker.getLatestVersionFromGitHub env (ownerOf noname) (repoOf noname) w)
                = fetches (Worker.tagsUrl (ownerOf noname) (repoOf noname)) 1 w).
    { unfold Worker.getLatestVersionFromGitHub, bind, fetch, readJson.
      destruct (net env (clock w) _) as [e|r]; [reflexivity|].
      destruct (ok r); cbn [negb]; [|reflexivity].
      destruct (json r) as [tags|e]; [|reflexivity].
      destruct (firstTagNot1998 tags); reflexivity. }
    rewrite E. split; [apply sameDisk_fetches|apply fetchesWithin_fetches].
  - cbn. split; [apply sameDisk_refl|].
    apply (fetchesWithin_weaken 0); [lia|apply fetchesWithin_refl].
Qed.

Lemma worker_tryBlock_eq (env : Env) (noname : Noname) (w : World) :
  Worker.tryBlock env (version noname) (ownerOf noname) (repoOf noname) (fileList noname) w =
  match versionOf env noname w with
  | (Throw e, w0) => (Throw e, w0)
  | (Ok v, w0) =>
      match Worker.downloadAll env (ownerOf noname) (repoOf noname) v (fileList noname) [] w0
      with
      | (Throw e, w1) => (Throw e, w1)
      | (Ok zip, w1) =>
          if header_ok env "application/zip" &&
             header_ok env (disposition (workerFileName (ownerOf noname) (repoOf noname) v
                                           (keyOf noname)))
          then (Ok {| Worker.respStatus := 200;
                      Worker.respHeaders :=
                        [("Content-Type", "application/zip");
                         ("Content-Disposition",
                          disposition (workerFileName (ownerOf noname) (repoOf noname) v
                                         (keyOf noname)))];
                      Worker.respBody := Some (Worker.BlobBody zip) |}, w1)
          else (Throw (ErrorObj "Invalid header value"), w1)
      end
  end.
Proof.
  unfold Worker.tryBlock, versionOf, bind.
  destruct ((if isFalsy (version noname)
             then Worker.getLatestVersionFromGitHub env (ownerOf noname) (repoOf noname)
             else ret (default "" (version noname))) w) as [[v|e] w0]; [|reflexivity].
  destruct (Worker.downloadAll _ _ _ _ _ _ _) as [[zip|e] w1]; [|reflexivity].
  unfold Worker.headers_set. rewrite worker_disposition. fold (keyOf noname).
  destruct (header_ok env "application/zip"); [|reflexivity]. cbn [andb app].
  destruct (header_ok env _); reflexivity.
Qed.

Lemma worker_getNoname_eq (env : Env) (noname : Noname) (w : World) :
  Worker.getNoname env noname w =
  if negb (String.eqb (action noname) "downloadAssets")
  then (Ok {| Worker.respStatus := 400; Worker.respHeaders := [];
              Worker.respBody := None |}, w)
  else match Worker.tryBlock env (version noname) (ownerOf noname) (repoOf noname)
               (fileList noname) w with
       | (Ok r, w1) => (Ok r, w1)
       | (Throw e, w1) =>
           (Ok {| Worker.respStatus := 500; Worker.respHeaders := [];
                  Worker.respBody := option_map Worker.TextBody (Worker.messageOf e) |},
            emit (EvConsoleError e) w1)
       end.
Proof.
  unfold Worker.getNoname. destruct (negb _); [reflexivity|].
  unfold try_catch, ownerOf, repoOf.
  destruct (Worker.tryBlock _ _ _ _ _ _) as [[r|e] w1]; reflexivity.
Qed.

Lemma worker_tryBlock_step (env : Env) (noname : Noname) (w : World) :
  let run := Worker.tryBlock env (version noname) (ownerOf noname) (repoOf noname)
               (fileList noname) w in
  sameDisk w (snd run) /\
  fetchesWithin (1 + 5 * length (fileList noname)) w (snd run).
Proof.
  cbv zeta. rewrite worker_tryBlock_eq.
  destruct (versionOf_step env noname w) as (S0 & B0).
  destruct (versionOf env noname w) as [[v|e] w0]; cbn [fst snd] in *.
  2:{ split; [exact S0|]. apply (fetchesWithin_weaken 1); [lia|exact B0]. }
  destruct (downloadAll_spec env (ownerOf noname) (repoOf noname) v (fileList noname) [] w0)
    as (S1 & B1 & _).
  assert (S : sameDisk w (snd (Worker.downloadAll env (ownerOf noname) (repoOf noname) v
                                 (fileList noname) [] w0)))
    by (eapply sameDisk_trans; eauto).
  pose proof (fetchesWithin_trans _ _ _ _ _ B0 B1) as B.
  destruct (Worker.downloadAll _ _ _ _ _ _ _) as [[zip|e] w1]; cbn [fst snd] in *; auto.
  destruct (_ && _); auto.
Qed.

(** X13.  The fetch-API handler works on the network only: files,
    directories, outstanding removals and the server's response object
    are as before, and it issues at most one fetch for the tag list and
    five for each file of the list.  A request with another action is
    answered without any platform call. *)
Theorem worker_fetches_within_budget (env : Env) (noname : Noname) (w : World) :
  let w' := snd (Worker.getNoname env noname w) in
  sameDisk w w' /\
  fetchesWithin (1 + 5 * length (fileList noname)) w w' /\
  (action noname <> "downloadAssets" -> w' = w).
Proof.
  cbv zeta. rewrite worker_getNoname_eq.
  destruct (String.eqb_spec (action noname) "downloadAssets") as [A|NA]; cbn [negb snd].
  2:{ split; [apply sameDisk_refl|]. split; [|reflexivity].
      apply (fetchesWithin_weaken 0); [lia|apply fetchesWithin_refl]. }
  destruct (worker_tryBlock_step env noname w) as (S & B).
  destruct (Worker.tryBlock _ _ _ _ _ _) as [[r|e] w1]; cbn [fst snd] in *.
  - split; [exact S|]. split; [exact B|]. intros NA. contradiction.
  - split; [exact S|]. split; [|intros NA; contradiction].
    destruct B as (tr & T & L). exists (tr ++ [EvConsoleError e])%list. split.
    + cbn. rewrite T. now rewrite app_assoc.
    + rewrite fetched_app, length_app. cbn. lia.
Qed.


(** X15.  The server and the fetch-API variant resolve the latest
    version alike: the same single query, and the same version
    whenever one of them finds one.  They differ in the errors: the
    fetch-API variant names the queried address in both of its
    messages.  A rejection of the fetch or of [json()] is passed on as
    it is. *)
Theorem variants_resolve_same_version (env : Env) (owner repo : string) (w : World) :
  let input := Worker.tagsUrl owner repo in
  let server := Server.getLatestVersionFromGitHub env owner repo w in
  let worker := Worker.getLatestVersionFromGitHub env owner repo w in
  snd worker = snd server /\
  (forall v, fst worker = Ok v <-> fst server = Ok v) /\
  (forall e, net env (clock w) input = Rejected e -> fst worker = Throw e) /\
  (forall r, net env (clock w) input = Responded r -> ok r = false ->
     fst worker = Throw (ErrorObj ("Failed to fetch tags from " ++ input))) /\
  (forall r e, net env (clock w) input = Responded r -> ok r = true ->
     json r = Throw e -> fst worker = Throw e) /\
  (forall r tags, net env (clock w) input = Responded r -> ok r = true ->
     json r = Ok tags -> firstTagNot1998 tags = None ->
     fst worker = Throw (ErrorObj ("No valid tags found in " ++ input))).
Proof.
  cbv zeta.
  unfold Server.getLatestVersionFromGitHub, Worker.getLatestVersionFromGitHub, bind, fetch,
    readJson.
  change (Server.tagsUrl owner repo) with (Worker.tagsUrl owner repo).
  destruct (net env (clock w) (Worker.tagsUrl owner repo)) as [e|r]; cbn [fst snd].
  { repeat split; intros; try discriminate; congruence. }
  destruct (ok r) eqn:O; cbn [negb fst snd].
  2:{ repeat split; intros; try discriminate; congruence. }
  destruct (json r) as [tags|e] eqn:J; cbn [fst snd].
  2:{ repeat split; intros; try discriminate; congruence. }
  destruct (firstTagNot1998 tags) as [v|] eqn:F; cbn [fst snd];
    repeat split; intros; try discriminate; congruence.
Qed.

(** ** The fetch-API variant that copies from the release archive *)


Lemma literalToEnd_escape (file : string) :
  Zipball.literalToEnd (Zipball.escapeRegExp file ++ "$") = Some file.
Proof.
  induction file as [|c file IH]; [reflexivity|].
  cbn [Zipball.escapeRegExp].
  destruct (Zipball.isRegexChar c) eqn:R.
  - rewrite !append_cons. cbn [Zipball.literalToEnd]. rewrite R, IH. reflexivity.
  - rewrite append_cons. cbn [Zipball.literalToEnd].
    assert (N1 : Ascii.eqb c "\"%char = false).
    { destruct (Ascii.eqb_spec c "\"%char) as [->|]; [discriminate R|reflexivity]. }
    assert (N2 : Ascii.eqb c "$"%char = false).
    { destruct (Ascii.eqb_spec c "$"%char) as [->|]; [discriminate R|reflexivity]. }
    rewrite N1, N2, R, IH. reflexivity.
Qed.

Lemma stripPrefix_app (p s : string) : Zipball.stripPrefix p (p ++ s) = Some s.
Proof.
  induction p as [|c p IH]; [reflexivity|].
  rewrite append_cons. cbn [Zipball.stripPrefix]. now rewrite Ascii.eqb_refl.
Qed.

Lemma afterFirstSlash_spec (s below : string) :
  Zipball.afterFirstSlash s = Some below <->
  exists folder, s = folder ++ "/" ++ below /\
    forallb (fun c => negb (Ascii.eqb c "/"%char)) (list_ascii_of_string folder) = true.
Proof.
  revert below. induction s as [|c s IH]; intros below; cbn [Zipball.afterFirstSlash].
  - split; [discriminate|]. intros (folder & E & _). destruct folder; discriminate.
  - destruct (Ascii.eqb_spec c "/"%char) as [->|NE].
    + split.
      * intros [= ->]. exists "". split; reflexivity.
      * intros (folder & E & F). destruct folder as [|d folder].
        -- cbn in E. now injection E as ->.
        -- rewrite append_cons in E. injection E as <- _. discriminate F.
    + rewrite IH. split.
      * intros (folder & -> & F). exists (String c folder). split; [reflexivity|].
        cbn. rewrite F. destruct (Ascii.eqb_spec c "/"%char); [contradiction|reflexivity].
      * intros (folder & E & F). destruct folder as [|d folder].
        -- cbn in E. injection E as -> _. contradiction.
        -- rewrite append_cons in E. injection E as <- ->. exists folder.
           cbn in F. apply andb_true_iff in F as [_ F]. auto.
Qed.

Lemma belowTopFolder_spec (path below : string) :
  Zipball.belowTopFolder path = Some below <->
  exists folder, path = folder ++ "/" ++ below /\ folder <> "" /\
    forallb (fun c => negb (Ascii.eqb c "/"%char)) (list_ascii_of_string folder) = true.
Proof.
  unfold Zipball.belowTopFolder. destruct path as [|c path].
  - split; [discriminate|]. intros (folder & E & _). destruct folder; discriminate.
  - destruct (Ascii.eqb_spec c "/"%char) as [->|NE].
    + split; [discriminate|]. intros (folder & E & NEf & F).
      destruct folder as [|d folder]; [contradiction|].
      rewrite append_cons in E. injection E as <- _. discriminate F.
    + rewrite afterFirstSlash_spec. split.
      * intros (folder & E & F). exists folder. repeat split; auto.
        intros ->. cbn in E. injection E as -> _. contradiction.
      * intros (folder & E & _ & F). eauto.
Qed.

Lemma regExpTest_entryPattern (file path : string) :
  Zipball.regExpTest (Zipball.entryPattern file) path =
  Some match Zipball.belowTopFolder path with
       | Some below => String.eqb below file
       | None => false
       end.
Proof.
  unfold Zipball.regExpTest, Zipball.entryPattern.
  now rewrite stripPrefix_app, literalToEnd_escape.
Qed.

(** X16.  Escaping makes the file name literal: read back, the
    escaped text stands for the file name itself, so the regular
    expression built for a file is always well formed, and it matches a
    path of the archive exactly when the path is the file name below one
    non-empty top folder. *)
Theorem entry_pattern_is_literal (file path : string) :
  Zipball.literalToEnd (Zipball.escapeRegExp file ++ "$") = Some file /\
  (Zipball.regExpTest (Zipball.entryPattern file) path = Some true <->
   exists folder, path = folder ++ "/" ++ file /\ folder <> "" /\
     forallb (fun c => negb (Ascii.eqb c "/"%char)) (list_ascii_of_string folder) = true) /\
  (Zipball.regExpTest (Zipball.entryPattern file) path = Some true \/
   Zipball.regExpTest (Zipball.entryPattern file) path = Some false).
Proof.
  split; [apply literalToEnd_escape|].
  rewrite regExpTest_entryPattern.
  destruct (Zipball.belowTopFolder path) as [below|] eqn:B.
  - split.
    + split.
      * intros [= E]. apply String.eqb_eq in E. subst below.
        now apply belowTopFolder_spec.
      * intros H. apply belowTopFolder_spec in H. rewrite B in H. injection H as ->.
        now rewrite String.eqb_refl.
    + destruct (String.eqb below file); auto.
  - split; [|auto]. split; [discriminate|].
    intros H. apply belowTopFolder_spec in H. congruence.
Qed.



Lemma zip_file_sets (n d : string) (zip : list (string * string)) :
  In (n, d) (Worker.zip_file n d zip).
Proof.
  induction zip as [|[m e] zip IH]; cbn; [auto|].
  destruct (String.eqb m n); cbn; auto.
Qed.



